(** * video-translation-annihilator: inventory, stream selection and script
      generation

    A shallow embedding of [video-translation-annihilator.py].  The parts of
    the program that carry decisions are embedded:

    - [MediaFileInfo.from_path] / [MediaFile.from_path] and
      [find_media_files] (inventory and the [media.pickle] snapshot),
    - [_map_streams] (which audio and subtitle streams are dropped),
    - [_gen_cmdline] and [process_media_files] (the command line of one
      file and the whole script),
    - the statements at the end of the file, from the dictionary that [init]
      returns up to the computation of the script ([init] itself and the
      writing of the script file are not embedded).

    Python strings are modelled as [string] (sequences of 8-bit characters; a
    character outside ASCII is the bytes of its UTF-8 encoding, which the
    one-character needles of the program, all ASCII, never match),
    Python [int]s as [Z], the [tags] dictionary of a stream as a
    [gmap string string].  A stream dictionary is modelled by the three keys
    the program reads, each of which may be absent.  What the program does to
    the outside world (logging, directory walks, [ffprobe] runs, reading and
    writing [media.pickle]) is recorded in an explicit state that is threaded
    through a small state-and-exception monad; what it only reads from the
    outside world ([os.path.exists], the result of [rglob], the output of
    [ffprobe]) is a record of functions, and so is [str.lower], whose Unicode
    tables are not written out.  The progress bars of [tqdm] only
    iterate and are left out; arguments have the types of their annotations
    ([path : str], [cached : bool]). *)

From Stdlib Require Import ZArith List Ascii String.
From stdpp Require Import base option list strings pretty gmap.

Import ListNotations.
Local Open Scope string_scope.
Local Open Scope list_scope.

(** ** Python string operations used by the program *)

Module PyStr.

(** [c in s] for a one-character needle [c]. *)
Fixpoint contains_char (c : ascii) (s : string) : bool :=
  match s with
  | EmptyString => false
  | String a s' => if Ascii.eqb a c then true else contains_char c s'
  end.

(** [s.split(sep)] for a one-character separator: never the empty list. *)
Fixpoint split (sep : ascii) (s : string) : list string :=
  match s with
  | EmptyString => [EmptyString]
  | String a s' =>
      if Ascii.eqb a sep then EmptyString :: split sep s'
      else match split sep s' with
           | h :: t => String a h :: t
           | [] => [String a EmptyString]
           end
  end.

(** [l[-1]] on the result of a split (which is never empty). *)
Definition last_item (l : list string) : string := List.last l EmptyString.

Definition lower_char (a : ascii) : ascii :=
  let n := N_of_ascii a in
  if ((65 <=? n) && (n <=? 90))%N then ascii_of_N (n + 32) else a.

(** What [s.lower()] does to a string of ASCII characters: the letters A-Z
    become a-z and nothing else changes.  On other strings Python follows the
    Unicode tables, which are not written out here: the program's call of
    [lower] is the field [str_lower] of [World]. *)
Fixpoint ascii_lower (s : string) : string :=
  match s with
  | EmptyString => EmptyString
  | String a s' => String (lower_char a) (ascii_lower s')
  end.

(** All characters of [s] are ASCII (below 128). *)
Fixpoint is_ascii (s : string) : bool :=
  match s with
  | EmptyString => true
  | String a s' => (N_of_ascii a <? 128)%N && is_ascii s'
  end.

(** [s.startswith(p)]. *)
Fixpoint startswith (p s : string) : bool :=
  match p with
  | EmptyString => true
  | String a p' =>
      match s with
      | EmptyString => false
      | String b s' => if Ascii.eqb a b then startswith p' s' else false
      end
  end.

(** The scan of [s.replace(old, new)]: left to right, every occurrence of
    [old] that does not overlap an earlier replaced one is replaced by
    [new].  [skip] counts the characters of a matched occurrence that are
    still to be passed over.  With an empty [old], [new] is inserted before
    every character and at the end, as Python does. *)
Fixpoint replace_go (old new : string) (skip : nat) (s : string) : string :=
  match s with
  | EmptyString =>
      match old with EmptyString => new | _ => EmptyString end
  | String c s' =>
      match skip with
      | S k => replace_go old new k s'
      | O =>
          if startswith old s then
            match old with
            | EmptyString => new +:+ String c (replace_go old new 0 s')
            | String _ old' => new +:+ replace_go old new (String.length old') s'
            end
          else String c (replace_go old new 0 s')
      end
  end.

(** [s.replace(old, new)]. *)
Definition replace (s old new : string) : string := replace_go old new 0 s.

(** [sep.join(l)]. *)
Fixpoint join (sep : string) (l : list string) : string :=
  match l with
  | [] => EmptyString
  | [x] => x
  | x :: l' => x +:+ sep +:+ join sep l'
  end.

(** [str(n)] / [f'{n}'] for an [int]. *)
Definition of_int (n : Z) : string := pretty n.

End PyStr.

(** The two characters the program writes that a string literal cannot
    hold directly: the line feed and the double quote. *)
Definition nl : string := String "010"%char EmptyString.
Definition dq : string := String "034"%char EmptyString.

(** ** Data model *)

(** One entry of ffprobe's ["streams"] array, restricted to the keys the
    program reads.  A key that is absent from the dictionary is [None]:
    [_stream['index']] and [_stream['codec_name']] raise [KeyError] then,
    while [tags] and its [language] entry are tested with [in] first. *)
Record Stream := {
  index : option Z;
  codec_name : option string;
  tags : option (gmap string string)
}.

Record MediaFileInfo := {
  container : string;
  audio_streams : list Stream;
  video_streams : list Stream;
  subtitle_streams : list Stream
}.

Record MediaFile := {
  path : string;
  info : MediaFileInfo
}.

(** ** Exceptions, effects and the monad *)

Inductive exn :=
| ValueError (msg : string)
| FileNotFoundError (msg : string)
| KeyError (key : string)
| CalledProcessError (cmd : list string)
| JSONDecodeError
| UnpicklingError.

Inductive result (A : Type) :=
| Ok (a : A)
| Raise (e : exn).
Arguments Ok {A} a.
Arguments Raise {A} e.

(** What the program does to the outside world, in the order it does it. *)
Inductive event :=
| LogInfo (msg : string)               (* logging.info(msg) *)
| LogError (e : exn)                   (* logging.error(e) *)
| Walk (root pattern : string)         (* Path(root).rglob(pattern) *)
| Probe (stream file : string)         (* one ffprobe run *)
| PickleLoad                           (* pickle.load from media.pickle *)
| PickleDump (media_files : list MediaFile). (* pickle.dump to media.pickle *)

(** The mutable part of the world: the file [media.pickle] (absent, or
    present with what [pickle.load] makes of its content) and the trace of
    effects so far. *)
Record State := {
  pickle_file : option (result (list MediaFile));
  trace : list event
}.

(** What the program takes from outside and only reads: the file system,
    ffprobe, and the library function [str.lower].  Of [str.lower] only its
    effect on ASCII strings is stated; on other strings (where it follows the
    Unicode tables, so that for instance the Kelvin sign becomes k) it is
    whatever Python makes it. *)
Record World := {
  path_exists : string -> bool;                      (* os.path.exists *)
  rglob : string -> string -> list string;           (* Path(root).rglob(pattern), as strings *)
  ffprobe : string -> string -> result (list Stream); (* stream kind, file: the parsed ['streams'] *)
  str_lower : string -> string;                      (* s.lower() *)
  str_lower_ascii :
    forall s, PyStr.is_ascii s = true -> str_lower s = PyStr.ascii_lower s
}.

Definition M (A : Type) : Type := State -> result A * State.

Definition ret {A} (a : A) : M A := fun st => (Ok a, st).

Definition bind {A B} (c : M A) (k : A -> M B) : M B :=
  fun st =>
    match c st with
    | (Ok a, st') => k a st'
    | (Raise e, st') => (Raise e, st')
    end.

Definition raise {A} (e : exn) : M A := fun st => (Raise e, st).

(** [try: c except Exception as e: h e]. *)
Definition try_except {A} (c : M A) (h : exn -> M A) : M A :=
  fun st =>
    match c st with
    | (Ok a, st') => (Ok a, st')
    | (Raise e, st') => h e st'
    end.

Definition emit (ev : event) : M unit :=
  fun st => (Ok tt, {| pickle_file := pickle_file st; trace := trace st ++ [ev] |}).

Declare Scope py_scope.
Delimit Scope py_scope with py.
Notation "x <- c ;; k" := (bind c (fun x => k))
  (at level 100, c at next level, right associativity) : py_scope.
Notation "c ;;; k" := (bind c (fun _ => k))
  (at level 100, right associativity) : py_scope.
Local Open Scope py_scope.

Definition logging_info (msg : string) : M unit := emit (LogInfo msg).
Definition logging_error (e : exn) : M unit := emit (LogError e).

(** ** Stream selection and script generation: [process_media_files] *)

(** [_stream['tags']['language'] if 'tags' in _stream and
    'language' in _stream['tags'] else 'und'] *)
Definition stream_language (_stream : Stream) : string :=
  match tags _stream with
  | Some t =>
      match t !! "language" with
      | Some l => l
      | None => "und"
      end
  | None => "und"
  end.

Definition getitem_index (_stream : Stream) : M Z :=
  match index _stream with
  | Some i => ret i
  | None => raise (KeyError "index")
  end.

Definition getitem_codec_name (_stream : Stream) : M string :=
  match codec_name _stream with
  | Some c => ret c
  | None => raise (KeyError "codec_name")
  end.

(** The condition of the [if] in [_map_streams]. *)
Definition drop_test (languages : list string) (_stream_language : string) : bool :=
  negb (String.eqb _stream_language "und")
  && negb (bool_decide (_stream_language ∈ languages)).

(** The body of the [for] loop of [_map_streams], with the list [_streams]
    built so far. *)
Fixpoint _map_streams_loop (media_file_path stream : string) (languages : list string)
    (l : list Stream) (_streams : list Z) : M (list Z) :=
  match l with
  | [] => ret _streams
  | _stream :: l' =>
      let _stream_language := stream_language _stream in
      if drop_test languages _stream_language then
        i <- getitem_index _stream ;;
        c <- getitem_codec_name _stream ;;
        logging_info (media_file_path +:+ " - delete " +:+ stream +:+ " stream: "
                      +:+ PyStr.of_int i +:+ ":" +:+ c +:+ ":" +:+ _stream_language) ;;;
        i' <- getitem_index _stream ;;
        _map_streams_loop media_file_path stream languages l' (_streams ++ [i'])
      else
        _map_streams_loop media_file_path stream languages l' _streams
  end.

Definition selected_streams (media_file : MediaFile) (stream : string) : list Stream :=
  if String.eqb stream "audio" then audio_streams (info media_file)
  else subtitle_streams (info media_file).

Definition _map_streams (languages : list string) (media_file : MediaFile)
    (stream : string) : M (list Z) :=
  _map_streams_loop (path media_file) stream languages
    (selected_streams media_file stream) [].

Definition output_path (media_file : MediaFile) : string :=
  PyStr.replace (path media_file) (container (info media_file))
    ("cleaned." +:+ container (info media_file)).

Definition _gen_cmdline (media_file : MediaFile)
    (audio_stream_ids subtitle_stream_ids : list Z) : list string :=
  let cmd := ["ffmpeg"; "-i"; path media_file; "-map"; "0"; "-map"] in
  let cmd := fold_left (fun cmd audio_stream_id =>
                          cmd ++ ["-0:a:" +:+ PyStr.of_int audio_stream_id])
               audio_stream_ids cmd in
  let cmd := fold_left (fun cmd subtitle_stream_id =>
                          cmd ++ ["-0:s:" +:+ PyStr.of_int subtitle_stream_id])
               subtitle_stream_ids cmd in
  cmd ++ ["-c"; "copy"; output_path media_file].

(** [f'"{arg}"' if ' ' in arg else arg] *)
Definition quote_arg (arg : string) : string :=
  if PyStr.contains_char " " arg then dq +:+ arg +:+ dq else arg.

(** The [for] loop of [process_media_files], with the text built so far. *)
Fixpoint process_loop (languages : list string) (media_files : list MediaFile)
    (script : string) : M string :=
  match media_files with
  | [] => ret script
  | media_file :: rest =>
      audio_stream_ids <- _map_streams languages media_file "audio" ;;
      subtitle_stream_ids <- _map_streams languages media_file "subtitle" ;;
      let cmdline := _gen_cmdline media_file audio_stream_ids subtitle_stream_ids in
      let script := script +:+ ("echo " +:+ dq +:+ "Processing " +:+ path media_file
                                +:+ "..." +:+ dq +:+ nl) in
      let script := script +:+ PyStr.join " " (map quote_arg cmdline) in
      let script := script +:+ (nl +:+ nl) in
      process_loop languages rest script
  end.

Definition process_media_files (media_files : list MediaFile)
    (languages : list string) : M string :=
  process_loop languages media_files ("#!/bin/bash" +:+ nl +:+ nl).

(** ** Inventory: [from_path] and [find_media_files] *)

Section Inventory.

Variable w : World.

(** The nested [__stream_info]: one ffprobe run, whose parsed ['streams']
    entry is returned; a non-zero exit, unparsable output or a missing
    ['streams'] key raises. *)
Definition __stream_info (path stream : string) : M (list Stream) :=
  fun st =>
    (ffprobe w stream path,
     {| pickle_file := pickle_file st; trace := trace st ++ [Probe stream path] |}).

Definition _read_ffmpeg_info (path : string)
  : M (list Stream * list Stream * list Stream) :=
  a <- __stream_info path "a" ;;
  v <- __stream_info path "v" ;;
  s <- __stream_info path "s" ;;
  ret (a, v, s).

(** [path.split('.')[-1].lower()] *)
Definition container_of (path : string) : string :=
  str_lower w (PyStr.last_item (PyStr.split "." path)).

Definition known_containers : list string := ["mkv"; "mp4"; "avi"].

Definition MediaFileInfo_from_path (path : string) : M MediaFileInfo :=
  if negb (PyStr.contains_char "." path) then
    raise (ValueError ("Cannot detect a container in path " +:+ dq +:+ path +:+ dq))
  else if negb (path_exists w path) then
    raise (FileNotFoundError ("Cannot find media in path " +:+ dq +:+ path +:+ dq))
  else
    let container := container_of path in
    if negb (bool_decide (container ∈ known_containers)) then
      ret {| container := "unknown"; audio_streams := [];
             video_streams := []; subtitle_streams := [] |}
    else
      streams <- _read_ffmpeg_info path ;;
      let '(audio_streams, video_streams, subtitle_streams) := streams in
      ret {| container := container; audio_streams := audio_streams;
             video_streams := video_streams; subtitle_streams := subtitle_streams |}.

Definition MediaFile_from_path (path : string) : M MediaFile :=
  info <- MediaFileInfo_from_path path ;;
  ret {| path := path; info := info |}.

(** [os.path.exists('media.pickle')] *)
Definition pickle_exists : M bool :=
  fun st => (Ok (bool_decide (is_Some (pickle_file st))), st).

(** [with open('media.pickle', 'rb') as cf: pickle.load(cf)] *)
Definition pickle_load : M (list MediaFile) :=
  fun st =>
    match pickle_file st with
    | Some r => (r, {| pickle_file := pickle_file st; trace := trace st ++ [PickleLoad] |})
    | None => (Raise (FileNotFoundError "media.pickle"), st)
    end.

(** [with open('media.pickle', 'wb') as cf: pickle.dump(media_files, cf)]:
    afterwards the file holds what loads back as [media_files]. *)
Definition pickle_dump (media_files : list MediaFile) : M unit :=
  fun st =>
    (Ok tt, {| pickle_file := Some (Ok media_files);
               trace := trace st ++ [PickleDump media_files] |}).

(** [for ext in [...]: input_files.extend(list(Path(path).rglob(f'*.{ext}')))] *)
Fixpoint walk_loop (path : string) (exts : list string) (input_files : list string)
  : M (list string) :=
  match exts with
  | [] => ret input_files
  | ext :: exts' =>
      emit (Walk path ("*." +:+ ext)) ;;;
      walk_loop path exts' (input_files ++ rglob w path ("*." +:+ ext))
  end.

(** [for file in input_files: try: media_files.append(...) except ...] *)
Fixpoint read_loop (input_files : list string) (media_files : list MediaFile)
  : M (list MediaFile) :=
  match input_files with
  | [] => ret media_files
  | file :: rest =>
      media_files' <-
        try_except
          (mf <- MediaFile_from_path file ;; ret (media_files ++ [mf]))
          (fun e => logging_error e ;;; ret media_files) ;;
      read_loop rest media_files'
  end.

Definition find_media_files (path : string) (cached : bool) : M (list MediaFile) :=
  present <- pickle_exists ;;
  if present && cached then
    logging_info ("Starting from a cached file scan in " +:+ dq +:+ "media.pickle" +:+ dq) ;;;
    pickle_load
  else
    logging_info ("Searching for compatible files in " +:+ dq +:+ path +:+ dq) ;;;
    input_files <- walk_loop path known_containers [] ;;
    logging_info ("Reading stream info in " +:+ PyStr.of_int (Z.of_nat (length input_files))
                  +:+ " file(s)") ;;;
    media_files <- read_loop input_files [] ;;
    logging_info ("Storing a cached file scan in " +:+ dq +:+ "media.pickle" +:+ dq) ;;;
    pickle_dump media_files ;;;
    ret media_files.

End Inventory.

(** ** The driver: the statements at the end of the file *)

(** The statements after [args = init()] up to the computation of [script]
    are embedded as [main].  [init] is not part of it: it parses the command
    line (and ends the program with status 2 when a required option is
    missing) and sets the logging up; [main] starts from the dictionary it
    returned.  The last statements, which remove the file at the script path
    and write the script there, are not part of it either: [main] ends where
    they begin, with the text they are to write. *)

(** The dictionary that [init] returns, as far as the driver reads it.  An
    option that was not given on the command line is [None]; [script_path]
    has a default and [languages] is required, so both are always there. *)
Record Args := {
  input_path : option string;
  script_path : string;
  languages : string;
  cached : option bool
}.

(** Python's truth value of an optional string and of an optional flag. *)
Definition truthy_str (o : option string) : bool :=
  match o with
  | Some (String _ _) => true
  | _ => false
  end.

Definition truthy_bool (o : option bool) : bool :=
  match o with
  | Some true => true
  | _ => false
  end.

(** How a call of [find_media_files] by the driver ends.  Besides the
    exceptions of the scan there is the [TypeError] of [Path(None)]. *)
Inductive scan_ending :=
| ScanReturned (media_files : list MediaFile)
| ScanRaised (e : exn)
| ScanTypeError.

(** [find_media_files(path=args.get('input_path'), cached=args.get('cached'))].
    Without an input path the argument is [None]: the snapshot branch does
    not look at it, and the other branch logs it and then fails on
    [Path(None)] before any walk. *)
Definition find_media_files_opt (w : World) (path : option string) (cached : bool)
    (st : State) : scan_ending * State :=
  let run p :=
    match find_media_files w p cached st with
    | (Ok media_files, st') => (ScanReturned media_files, st')
    | (Raise e, st') => (ScanRaised e, st')
    end in
  match path with
  | Some p => run p
  | None =>
      if bool_decide (is_Some (pickle_file st)) && cached then run ""
      else
        (ScanTypeError,
         {| pickle_file := pickle_file st;
            trace := trace st
                     ++ [LogInfo ("Searching for compatible files in "
                                  +:+ dq +:+ "None" +:+ dq)] |})
  end.

(** How the statements end. *)
Inductive ending :=
| ScriptReady (script : string)
                           (* [script] is computed; what is left is to write it *)
| SystemExit (code : Z)    (* exit(code) *)
| Uncaught (e : exn)       (* an exception of the scan or of the script generation *)
| UncaughtTypeError.       (* the TypeError of Path(None) *)

(** The world of the driver: the state of the scan, the text files other than
    [media.pickle] and the log file (by path), and the lines the driver itself
    logs with [error].  The statements embedded here write no text file: the
    writing of the script comes after them. *)
Record Process := {
  scan_state : State;
  text_files : gmap string string;
  error_log : list string
}.

Definition main (w : World) (args : Args) (pr : Process) : ending * Process :=
  if negb (truthy_str (input_path args)) && negb (truthy_bool (cached args)) then
    (SystemExit 1,
     {| scan_state := scan_state pr; text_files := text_files pr;
        error_log := error_log pr
                     ++ ["You must provide --input-path or use --cached"] |})
  else
    match find_media_files_opt w (input_path args) (truthy_bool (cached args))
            (scan_state pr) with
    | (ScanTypeError, st1) =>
        (UncaughtTypeError,
         {| scan_state := st1; text_files := text_files pr;
            error_log := error_log pr |})
    | (ScanRaised e, st1) =>
        (Uncaught e,
         {| scan_state := st1; text_files := text_files pr;
            error_log := error_log pr |})
    | (ScanReturned media_files, st1) =>
        match (logging_info "Processing media" ;;;
               process_media_files media_files
                 (PyStr.split "," (languages args))) st1 with
        | (Raise e, st2) =>
            (Uncaught e,
             {| scan_state := st2; text_files := text_files pr;
                error_log := error_log pr |})
        | (Ok script, st2) =>
            (ScriptReady script,
             {| scan_state := st2; text_files := text_files pr;
                error_log := error_log pr |})
        end
    end.

(** * Vocabulary of the properties *)

(** ** Running a computation *)

(** The state before anything has happened: no snapshot, no events. *)
Definition empty_state : State := {| pickle_file := None; trace := [] |}.

(** [runs c r evs]: from every state, [c] ends with outcome [r], appends
    exactly the events [evs] to the trace and leaves [media.pickle] alone. *)
Definition runs {A} (c : M A) (r : result A) (evs : list event) : Prop :=
  forall st, c st = (r, {| pickle_file := pickle_file st; trace := trace st ++ evs |}).

(** Outcome and events of a computation started in the empty state. *)
Definition outcome {A} (c : M A) : result A := fst (c empty_state).
Definition events {A} (c : M A) : list event := trace (snd (c empty_state)).

(** A computation whose outcome and events are the same from every state. *)
Definition oblivious {A} (c : M A) : Prop := exists r evs, runs c r evs.

(** ** Stream selection *)

(** The decision rule in the words of the design: the resolved language is
    not ["und"] and is not a member of the allow-list. *)
Definition marked_for_drop (languages : list string) (s : Stream) : Prop :=
  stream_language s <> "und" /\ stream_language s ∉ languages.

#[global] Instance marked_for_drop_dec languages s : Decision (marked_for_drop languages s).
Proof. unfold marked_for_drop. apply _. Defined.

(** A stream record as the design has it: both [index] and [codec_name]
    are there. *)
Definition has_record_fields (s : Stream) : Prop :=
  is_Some (index s) /\ is_Some (codec_name s).

(** The language tag of a stream dictionary, when there is one: the entry
    [language] of its entry [tags]. *)
Definition language_tag (s : Stream) : option string :=
  match tags s with
  | Some t => t !! "language"
  | None => None
  end.

(** The resolved language of the design: the language tag, or "und" when
    there is none. *)
Definition resolved_language (s : Stream) : string :=
  match language_tag s with
  | Some lang => lang
  | None => "und"
  end.

(** The rule of the design, read off the dictionary: the resolved language
    is not "und" and is not a member of the allow-list. *)
Definition to_be_dropped (languages : list string) (s : Stream) : Prop :=
  resolved_language s <> "und" /\ resolved_language s ∉ languages.

(** [drop_list languages streams ids]: going through [streams] in order,
    a stream contributes its index to [ids] if it is to be dropped, and
    contributes nothing if it is not. *)
Inductive drop_list (languages : list string) : list Stream -> list Z -> Prop :=
| drop_list_nil : drop_list languages [] []
| drop_list_dropped s streams i ids :
    to_be_dropped languages s -> index s = Some i ->
    drop_list languages streams ids ->
    drop_list languages (s :: streams) (i :: ids)
| drop_list_kept s streams ids :
    ~ to_be_dropped languages s ->
    drop_list languages streams ids ->
    drop_list languages (s :: streams) ids.

(** The indices [_map_streams] collects from a list of stream records. *)
Definition stream_ids (languages : list string) (streams : list Stream) : list Z :=
  omap index (filter (marked_for_drop languages) streams).

(** The streams that the rule marks are stream records, in both lists. *)
Definition streams_are_records (languages : list string) (media_file : MediaFile)
  : Prop :=
  Forall (fun s => marked_for_drop languages s -> has_record_fields s)
    (audio_streams (info media_file))
  /\ Forall (fun s => marked_for_drop languages s -> has_record_fields s)
       (subtitle_streams (info media_file)).

(** ** Output path *)

(** [s] holds an occurrence of [old] that starts right after [pre]. *)
Definition occurs_after (old s pre : string) : Prop :=
  exists post, s = pre +:+ old +:+ post.

(** [t] is [s] with every occurrence of [old] replaced by [new], the
    occurrences being found from left to right and each search resuming
    right after the occurrence replaced last. *)
Inductive replaced_all (old new : string) : string -> string -> Prop :=
| replaced_none s :
    (forall pre, ~ occurs_after old s pre) ->
    replaced_all old new s s
| replaced_step pre post t :
    (forall pre', occurs_after old (pre +:+ old +:+ post) pre' ->
                  String.length pre <= String.length pre') ->
    replaced_all old new post t ->
    replaced_all old new (pre +:+ old +:+ post) (pre +:+ new +:+ t).

(** The reading of the design: only the first occurrence of [old] in [s] is
    replaced by [new]. *)
Fixpoint replace_first (s old new : string) : string :=
  if PyStr.startswith old s then
    new +:+ String.substring (String.length old) (String.length s) s
  else
    match s with
    | EmptyString => EmptyString
    | String c s' => String c (replace_first s' old new)
    end.

(** ** Script text *)

(** The text of one file: the echo line, the command line, a blank line. *)
Definition script_entry (quote : string -> string) (languages : list string)
    (media_file : MediaFile) : string :=
  ("echo " +:+ dq +:+ "Processing " +:+ path media_file +:+ "..." +:+ dq +:+ nl)
  +:+ PyStr.join " "
        (map quote
           (_gen_cmdline media_file
              (stream_ids languages (audio_streams (info media_file)))
              (stream_ids languages (subtitle_streams (info media_file)))))
  +:+ (nl +:+ nl).

(** The strings of [l], one after the other. *)
Definition concat_strings (l : list string) : string :=
  fold_right String.append "" l.

(** The whole script: the header line, a blank line, then the entries of
    the files in order. *)
Definition script_text (quote : string -> string) (languages : list string)
    (media_files : list MediaFile) : string :=
  "#!/bin/bash" +:+ nl +:+ nl
  +:+ concat_strings (map (script_entry quote languages) media_files).

(** The reading of the design: a token is quoted when it holds a
    whitespace character. *)
Definition quote_if_whitespace (arg : string) : string :=
  if existsb Ascii.is_space (list_ascii_of_string arg)
  then dq +:+ arg +:+ dq else arg.

(** ** Inventory *)

Section InventoryVocabulary.

Variable w : World.

(** [MediaFileInfo(container='unknown')]: the stream lists take their
    default, the empty list. *)
Definition unknown_info : MediaFileInfo :=
  {| container := "unknown"; audio_streams := [];
     video_streams := []; subtitle_streams := [] |}.

(** The ways [MediaFileInfo.from_path] can go: no dot in the path, no such
    file, an extension that is not recognised, three successful probes, or a
    probe that raises. *)
Inductive from_path_case (p : string) : result MediaFileInfo -> list event -> Prop :=
| fp_no_dot :
    PyStr.contains_char "." p = false ->
    from_path_case p
      (Raise (ValueError ("Cannot detect a container in path " +:+ dq +:+ p +:+ dq))) []
| fp_missing :
    PyStr.contains_char "." p = true -> path_exists w p = false ->
    from_path_case p
      (Raise (FileNotFoundError ("Cannot find media in path " +:+ dq +:+ p +:+ dq))) []
| fp_unknown :
    PyStr.contains_char "." p = true -> path_exists w p = true ->
    container_of w p ∉ known_containers ->
    from_path_case p (Ok unknown_info) []
| fp_probed a v s :
    PyStr.contains_char "." p = true -> path_exists w p = true ->
    container_of w p ∈ known_containers ->
    ffprobe w "a" p = Ok a -> ffprobe w "v" p = Ok v -> ffprobe w "s" p = Ok s ->
    from_path_case p
      (Ok {| container := container_of w p; audio_streams := a;
             video_streams := v; subtitle_streams := s |})
      [Probe "a" p; Probe "v" p; Probe "s" p]
| fp_probe_failed e evs :
    PyStr.contains_char "." p = true -> path_exists w p = true ->
    container_of w p ∈ known_containers ->
    (ffprobe w "a" p = Raise e \/ ffprobe w "v" p = Raise e
     \/ ffprobe w "s" p = Raise e) ->
    from_path_case p (Raise e) evs.

(** What scanning one file yields; it does not depend on the state the
    scan starts in. *)
Definition scan_one (file : string) : result MediaFile :=
  outcome (MediaFile_from_path w file).

(** The events of one turn of the scanning loop: those of [from_path], then
    the logged error when it raised. *)
Definition scan_events (file : string) : list event :=
  events (MediaFile_from_path w file)
  ++ match scan_one file with
     | Ok _ => []
     | Raise e => [LogError e]
     end.

(** The media files a scan of [files] collects: those that did not raise,
    in order. *)
Definition scanned (files : list string) : list MediaFile :=
  omap (fun file => match scan_one file with
                    | Ok mf => Some mf
                    | Raise _ => None
                    end) files.

(** One turn of the [for] loop of [find_media_files]: the [try] block. *)
Definition read_step (file : string) (media_files : list MediaFile)
  : M (list MediaFile) :=
  try_except
    (mf <- MediaFile_from_path w file ;; ret (media_files ++ [mf]))
    (fun e => logging_error e ;;; ret media_files).

(** The files of a fresh walk: all [mkv] matches, then all [mp4] matches,
    then all [avi] matches. *)
Definition enumerated (p : string) : list string :=
  rglob w p "*.mkv" ++ rglob w p "*.mp4" ++ rglob w p "*.avi".

(** All the events of a fresh scan of the root [p], in order. *)
Definition fresh_scan_events (p : string) : list event :=
  [LogInfo ("Searching for compatible files in " +:+ dq +:+ p +:+ dq);
   Walk p "*.mkv"; Walk p "*.mp4"; Walk p "*.avi";
   LogInfo ("Reading stream info in "
            +:+ PyStr.of_int (Z.of_nat (length (enumerated p))) +:+ " file(s)")]
  ++ concat (map scan_events (enumerated p))
  ++ [LogInfo ("Storing a cached file scan in " +:+ dq +:+ "media.pickle" +:+ dq);
      PickleDump (scanned (enumerated p))].

End InventoryVocabulary.

(** The events that make a scan a fresh one. *)
Definition is_scan_effect (ev : event) : Prop :=
  match ev with
  | Walk _ _ | Probe _ _ | PickleDump _ => True
  | _ => False
  end.

(** ** Concrete inputs *)

(** A stream record with a language tag. *)
Definition tagged_stream (i : Z) (codec lang : string) : Stream :=
  {| index := Some i; codec_name := Some codec;
     tags := Some {[ "language" := lang ]} |}.

(** The scenario file of the design: [movie.mkv] with two audio streams and
    one subtitle stream. *)
Definition movie_mkv (c0 c1 c2 : string) (video : list Stream) : MediaFile :=
  {| path := "movie.mkv";
     info := {| container := "mkv";
                audio_streams := [tagged_stream 0 c0 "jpn"; tagged_stream 1 c1 "eng"];
                video_streams := video;
                subtitle_streams := [tagged_stream 0 c2 "eng"] |} |}.

(** A file found under a directory that is itself called [mkv]. *)
Definition nested_mkv : MediaFile :=
  {| path := "mkv/a.mkv";
     info := {| container := "mkv"; audio_streams := [];
                video_streams := []; subtitle_streams := [] |} |}.

(** A file whose name holds a tab and no space. *)
Definition tab_file : MediaFile :=
  {| path := "a" +:+ String "009"%char "b.mkv";
     info := {| container := "mkv"; audio_streams := [];
                video_streams := []; subtitle_streams := [] |} |}.

(** The command line of one ffprobe run. *)
Definition ffprobe_cmd (kind file : string) : list string :=
  ["ffprobe"; "-show_streams"; "-select_streams"; kind; "-v"; "quiet"; "-of"; "json"; file].

(** A small library: two [mkv] files, of which [lib/b.mkv] makes ffprobe
    fail, and one [mp4] file. *)
Definition demo_world : World :=
  {| path_exists := fun _ => true;
     rglob := fun _ pattern =>
                if String.eqb pattern "*.mkv" then ["lib/a.mkv"; "lib/b.mkv"]
                else if String.eqb pattern "*.mp4" then ["lib/c.mp4"]
                else [];
     ffprobe := fun kind file =>
                  if String.eqb file "lib/b.mkv"
                  then Raise (CalledProcessError (ffprobe_cmd kind file))
                  else if String.eqb kind "a"
                       then Ok [tagged_stream 1 "aac" "eng"]
                       else Ok [];
     str_lower := PyStr.ascii_lower;
     str_lower_ascii := fun s _ => eq_refl |}.

(** ** Tactics *)

(** Membership in a list that is written out, possibly after a prefix. *)
Ltac in_list :=
  repeat first
    [ apply list_elem_of_here
    | apply list_elem_of_further
    | apply elem_of_app; right ].

(** ** Log lines, missing keys and kept streams *)

(** The text of the line [_map_streams] logs for a dropped stream. *)
Definition delete_line (media_file_path stream : string) (i : Z)
    (codec lang : string) : string :=
  media_file_path +:+ " - delete " +:+ stream +:+ " stream: "
  +:+ PyStr.of_int i +:+ ":" +:+ codec +:+ ":" +:+ lang.

(** The log line of one stream record. *)
Definition drop_log (media_file_path stream : string) (s : Stream) : list event :=
  match index s, codec_name s with
  | Some i, Some c =>
      [LogInfo (delete_line media_file_path stream i c (stream_language s))]
  | _, _ => []
  end.

(** The log lines of the streams of [streams] that the rule marks. *)
Definition drop_logs (media_file_path stream : string) (languages : list string)
    (streams : list Stream) : list event :=
  flat_map (drop_log media_file_path stream)
    (filter (marked_for_drop languages) streams).

(** The first key that [_map_streams] reads from a marked stream and does
    not find. *)
Definition missing_key (s : Stream) : option string :=
  match index s with
  | None => Some "index"
  | Some _ =>
      match codec_name s with
      | None => Some "codec_name"
      | Some _ => None
      end
  end.

(** A stream the rule keeps: no language, or an allowed one. *)
Definition kept (languages : list string) (s : Stream) : Prop :=
  stream_language s = "und" \/ stream_language s ∈ languages.

(** A file of which no audio or subtitle stream is to be dropped. *)
Definition nothing_to_drop (languages : list string) (media_file : MediaFile) : Prop :=
  Forall (kept languages) (audio_streams (info media_file))
  /\ Forall (kept languages) (subtitle_streams (info media_file)).

(** The script entry of a file of which nothing is dropped. *)
Definition plain_entry (media_file : MediaFile) : string :=
  ("echo " +:+ dq +:+ "Processing " +:+ path media_file +:+ "..." +:+ dq +:+ nl)
  +:+ PyStr.join " "
        (map quote_arg
           ["ffmpeg"; "-i"; path media_file; "-map"; "0"; "-map";
            "-c"; "copy"; output_path media_file])
  +:+ (nl +:+ nl).

Definition is_log_info (ev : event) : Prop :=
  match ev with
  | LogInfo _ => True
  | _ => False
  end.

(** A computation that does nothing to the world but write info lines to
    the log. *)
Definition logs_only {A} (c : M A) : Prop :=
  exists r evs, runs c r evs /\ Forall is_log_info evs.

(** [media_file] with other video streams. *)
Definition set_video (video : MediaFile -> list Stream) (media_file : MediaFile)
  : MediaFile :=
  {| path := path media_file;
     info := {| container := container (info media_file);
                audio_streams := audio_streams (info media_file);
                video_streams := video media_file;
                subtitle_streams := subtitle_streams (info media_file) |} |}.

(** A stream without a [codec_name], tagged French. *)
Definition nameless_stream : Stream :=
  {| index := Some 2%Z; codec_name := None;
     tags := Some {[ "language" := "fre" ]} |}.

Definition nameless_file : MediaFile :=
  {| path := "b.mkv";
     info := {| container := "mkv";
                audio_streams := [tagged_stream 1 "aac" "ger"; nameless_stream];
                video_streams := []; subtitle_streams := [] |} |}.

(** ** Occurrences, decided *)

(** [old in s]: does [old] occur somewhere in [s]? *)
Fixpoint occurs_in (old s : string) : bool :=
  PyStr.startswith old s
  || match s with
     | EmptyString => false
     | String _ s' => occurs_in old s'
     end.

(** The two kinds of exclusion token. *)
Definition audio_token (i : Z) : string := "-0:a:" +:+ PyStr.of_int i.
Definition subtitle_token (i : Z) : string := "-0:s:" +:+ PyStr.of_int i.

(** A file whose extension is written in capitals, as a snapshot made from
    [Movie.MKV] holds it. *)
Definition capitals_file : MediaFile :=
  {| path := "Movie.MKV";
     info := {| container := "mkv"; audio_streams := [];
                video_streams := []; subtitle_streams := [] |} |}.

(** ** Probes and logged errors *)

Definition is_probe (ev : event) : Prop :=
  match ev with
  | Probe _ _ => True
  | _ => False
  end.

(** A computation that does nothing to the world but run ffprobe. *)
Definition probes_only {A} (c : M A) : Prop :=
  exists r evs, runs c r evs /\ Forall is_probe evs.

(** The exceptions that were logged, in order. *)
Definition logged_errors (evs : list event) : list exn :=
  omap (fun ev => match ev with
                  | LogError e => Some e
                  | _ => None
                  end) evs.

(** The exceptions that scanning [files] meets, in order. *)
Definition scan_errors (w : World) (files : list string) : list exn :=
  omap (fun file => match scan_one w file with
                    | Ok _ => None
                    | Raise e => Some e
                    end) files.

(** Every match of [*.<ext>] under [root] ends in [.<ext>]: what a
    case-sensitive glob gives. *)
Definition glob_matches_extension (w : World) (root : string) : Prop :=
  forall ext file,
    ext ∈ known_containers -> file ∈ rglob w root ("*." +:+ ext) ->
    exists stem, file = stem +:+ "." +:+ ext.

(** ** Inputs of the driver *)


(** Only [-l eng]. *)
Definition bare_args : Args :=
  {| input_path := None; script_path := "process-media-files.sh";
     languages := "eng"; cached := None |}.

(** [-l eng --cached]. *)
Definition cached_args : Args :=
  {| input_path := None; script_path := "process-media-files.sh";
     languages := "eng"; cached := Some true |}.

(** Nothing on disk, nothing logged. *)
Definition empty_process : Process :=
  {| scan_state := empty_state; text_files := ∅; error_log := [] |}.

(** * Properties *)

(** ** The string operations on some inputs *)

Example split_ex : PyStr.split "." "a.b/c.MKV" = ["a"; "b/c"; "MKV"].
Proof. reflexivity. Qed.

Example split_no_sep_ex : PyStr.split "." "movie" = ["movie"].
Proof. reflexivity. Qed.

Example container_of_ex :
  container_of demo_world "lib/Show.S01.MKV" = "mkv"
  /\ container_of demo_world "a.tar.gz" = "gz".
Proof. split; reflexivity. Qed.

Example replace_ex :
  PyStr.replace "movie.mkv" "mkv" "cleaned.mkv" = "movie.cleaned.mkv"
  /\ PyStr.replace "aaa" "aa" "b" = "ba"
  /\ PyStr.replace "abc" "" "-" = "-a-b-c-"
  /\ PyStr.replace "Movie.MKV" "mkv" "cleaned.mkv" = "Movie.MKV".
Proof. repeat split; reflexivity. Qed.

Example join_ex : PyStr.join " " ["ffmpeg"; "-i"; "a.mkv"] = "ffmpeg -i a.mkv".
Proof. reflexivity. Qed.

Example of_int_ex : PyStr.of_int 12 = "12" /\ PyStr.of_int (-3) = "-3".
Proof. split; reflexivity. Qed.

Example quote_arg_ex :
  quote_arg "my movie.mkv" = dq +:+ "my movie.mkv" +:+ dq
  /\ quote_arg "movie.mkv" = "movie.mkv".
Proof. split; reflexivity. Qed.

(** On a path whose last segment is ASCII the container is that segment
    with A-Z made a-z. *)
Lemma container_of_ascii (w : World) (p : string) :
  PyStr.is_ascii (PyStr.last_item (PyStr.split "." p)) = true ->
  container_of w p = PyStr.ascii_lower (PyStr.last_item (PyStr.split "." p)).
Proof. intros Hascii. unfold container_of. by apply str_lower_ascii. Qed.

(** ** Running a computation *)

Lemma runs_ret {A} (a : A) : runs (ret a) (Ok a) [].
Proof. intros [pf tr]. unfold ret. simpl. by rewrite app_nil_r. Qed.

Lemma runs_raise {A} (e : exn) : runs (@raise A e) (Raise e) [].
Proof. intros [pf tr]. unfold raise. simpl. by rewrite app_nil_r. Qed.

Lemma runs_emit ev : runs (emit ev) (Ok tt) [ev].
Proof. by intros st. Qed.

Lemma runs_bind {A B} (c : M A) (k : A -> M B) a r evs1 evs2 :
  runs c (Ok a) evs1 -> runs (k a) r evs2 -> runs (bind c k) r (evs1 ++ evs2).
Proof.
  intros Hc Hk st. unfold bind. rewrite Hc, Hk. simpl. by rewrite app_assoc.
Qed.

Lemma runs_bind_raise {A B} (c : M A) (k : A -> M B) e evs :
  runs c (Raise e) evs -> runs (bind c k) (Raise e) evs.
Proof. intros Hc st. unfold bind. by rewrite Hc. Qed.

Lemma runs_try_ok {A} (c : M A) h a evs :
  runs c (Ok a) evs -> runs (try_except c h) (Ok a) evs.
Proof. intros Hc st. unfold try_except. by rewrite Hc. Qed.

Lemma runs_try_raise {A} (c : M A) h e r evs1 evs2 :
  runs c (Raise e) evs1 -> runs (h e) r evs2 -> runs (try_except c h) r (evs1 ++ evs2).
Proof.
  intros Hc Hh st. unfold try_except. rewrite Hc, Hh. simpl. by rewrite app_assoc.
Qed.

Lemma runs_fst {A} (c : M A) r evs st : runs c r evs -> fst (c st) = r.
Proof. intros Hc. by rewrite Hc. Qed.

Lemma runs_trace {A} (c : M A) r evs st :
  runs c r evs -> trace (snd (c st)) = trace st ++ evs.
Proof. intros Hc. by rewrite Hc. Qed.

Lemma runs_pickle {A} (c : M A) r evs st :
  runs c r evs -> pickle_file (snd (c st)) = pickle_file st.
Proof. intros Hc. by rewrite Hc. Qed.

(** ** Stream selection *)

Lemma drop_test_marked languages s :
  drop_test languages (stream_language s) = true <-> marked_for_drop languages s.
Proof.
  unfold drop_test, marked_for_drop.
  rewrite andb_true_iff, !negb_true_iff, String.eqb_neq, bool_decide_eq_false.
  tauto.
Qed.

Lemma _map_streams_loop_runs p kind languages l acc :
  Forall (fun s => marked_for_drop languages s -> has_record_fields s) l ->
  exists evs,
    runs (_map_streams_loop p kind languages l acc)
      (Ok (acc ++ omap index (filter (marked_for_drop languages) l))) evs.
Proof.
  intros Hl. revert acc.
  induction Hl as [|s l Hs Hl IH]; intros acc.
  - exists []. simpl. rewrite app_nil_r. apply runs_ret.
  - simpl. destruct (drop_test languages (stream_language s)) eqn:Ht.
    + apply drop_test_marked in Ht.
      destruct (Hs Ht) as [[i Hi] [c Hc]].
      rewrite filter_cons_True by done. simpl. rewrite Hi. simpl.
      destruct (IH (acc ++ [i])) as [evs Hevs].
      rewrite <- app_assoc in Hevs. simpl in Hevs.
      eexists.
      unfold getitem_index, getitem_codec_name. rewrite Hi, Hc.
      eapply runs_bind; [apply runs_ret|].
      eapply runs_bind; [apply runs_ret|].
      eapply runs_bind; [apply runs_emit|].
      eapply runs_bind; [apply runs_ret|].
      exact Hevs.
    + assert (~ marked_for_drop languages s) as Hn.
      { rewrite <- drop_test_marked. congruence. }
      rewrite filter_cons_False by done. apply IH.
Qed.

Lemma _map_streams_runs languages media_file kind :
  Forall (fun s => marked_for_drop languages s -> has_record_fields s)
    (selected_streams media_file kind) ->
  exists evs,
    runs (_map_streams languages media_file kind)
      (Ok (omap index (filter (marked_for_drop languages)
                         (selected_streams media_file kind)))) evs.
Proof.
  intros Hl. unfold _map_streams.
  destruct (_map_streams_loop_runs (path media_file) kind languages _ [] Hl)
    as [evs Hevs].
  by exists evs.
Qed.

Lemma stream_language_resolved s : stream_language s = resolved_language s.
Proof.
  unfold stream_language, resolved_language, language_tag.
  destruct (tags s) as [t|]; [|reflexivity]. by destruct (t !! "language").
Qed.

Lemma marked_to_be_dropped languages s :
  marked_for_drop languages s <-> to_be_dropped languages s.
Proof.
  unfold marked_for_drop, to_be_dropped. by rewrite stream_language_resolved.
Qed.

Lemma drop_list_omap languages streams :
  Forall (fun s => to_be_dropped languages s -> has_record_fields s) streams ->
  drop_list languages streams
    (omap index (filter (marked_for_drop languages) streams)).
Proof.
  induction 1 as [|s l Hs Hl IH]; [constructor|].
  destruct (decide (marked_for_drop languages s)) as [Hm|Hm].
  - rewrite filter_cons_True by done. simpl.
    apply marked_to_be_dropped in Hm.
    destruct (Hs Hm) as [[i Hi] _]. rewrite Hi. simpl.
    by apply drop_list_dropped.
  - rewrite filter_cons_False by done.
    apply drop_list_kept; [|exact IH]. by rewrite <- marked_to_be_dropped.
Qed.

Lemma drop_list_all_und languages streams ids :
  drop_list languages streams ids ->
  Forall (fun s => resolved_language s = "und") streams ->
  ids = [].
Proof.
  induction 1 as [|s l i ids [Hne _] Hi Hl IH|s l ids Hkeep Hl IH]; intros Hund.
  - reflexivity.
  - apply Forall_cons in Hund as [Hs _]. done.
  - apply Forall_cons in Hund as [_ Hund]. by apply IH.
Qed.

(** C1 (as stated): for every media file a stream is marked for drop iff
    its resolved language is not "und" and is not in the allow-list.  It is
    not so for a stream dictionary without [codec_name] (ffprobe leaves the
    key out for a codec it does not know): the French stream of
    [nameless_file] is to be dropped under the allow-list [eng], and
    [_map_streams] returns no drop list at all but raises [KeyError]. *)
Lemma map_streams_raises_on_missing_codec_name :
  nameless_stream ∈ audio_streams (info nameless_file)
  /\ language_tag nameless_stream = Some "fre"
  /\ to_be_dropped ["eng"] nameless_stream
  /\ fst (_map_streams ["eng"] nameless_file "audio" empty_state)
     = Raise (KeyError "codec_name")
  /\ ~ (exists ids,
          fst (_map_streams ["eng"] nameless_file "audio" empty_state) = Ok ids).
Proof.
  assert (fst (_map_streams ["eng"] nameless_file "audio" empty_state)
          = Raise (KeyError "codec_name")) as Hraise by (vm_compute; reflexivity).
  split; [simpl; in_list|]. split; [reflexivity|].
  split.
  { apply (bool_decide_unpack _). vm_compute. exact I. }
  split; [exact Hraise|].
  intros [ids Hids]. rewrite Hraise in Hids. discriminate.
Qed.

(** C1 (amended): for every media file whose streams to be dropped carry
    [index] and [codec_name], and every allow-list, [_map_streams] returns
    for the audio streams and for the subtitle streams the list to which, in
    stream order, a stream contributes its index if and only if its resolved
    language (its language tag, or "und" when it has none) is not "und" and
    is not a member of the allow-list (string equality); in particular
    streams whose resolved language is "und" contribute nothing, whatever the
    allow-list, the empty one included. *)
Theorem map_streams_drops_exactly (languages : list string)
    (media_file : MediaFile) (st st' : State) :
  Forall (fun s => to_be_dropped languages s -> has_record_fields s)
    (audio_streams (info media_file)) ->
  Forall (fun s => to_be_dropped languages s -> has_record_fields s)
    (subtitle_streams (info media_file)) ->
  exists audio_ids subtitle_ids,
    fst (_map_streams languages media_file "audio" st) = Ok audio_ids
    /\ fst (_map_streams languages media_file "subtitle" st') = Ok subtitle_ids
    /\ drop_list languages (audio_streams (info media_file)) audio_ids
    /\ drop_list languages (subtitle_streams (info media_file)) subtitle_ids
    /\ (Forall (fun s => resolved_language s = "und")
          (audio_streams (info media_file)) -> audio_ids = [])
    /\ (Forall (fun s => resolved_language s = "und")
          (subtitle_streams (info media_file)) -> subtitle_ids = []).
Proof.
  intros Ha Hs.
  assert (forall l,
            Forall (fun s => to_be_dropped languages s -> has_record_fields s) l ->
            Forall (fun s => marked_for_drop languages s -> has_record_fields s) l)
    as Hmarked.
  { intros l Hl. eapply Forall_impl; [exact Hl|].
    intros s Hrec Hm. by apply Hrec, marked_to_be_dropped. }
  destruct (_map_streams_runs languages media_file "audio" (Hmarked _ Ha))
    as [evs1 H1].
  destruct (_map_streams_runs languages media_file "subtitle" (Hmarked _ Hs))
    as [evs2 H2].
  pose proof (drop_list_omap languages _ Ha) as Hda.
  pose proof (drop_list_omap languages _ Hs) as Hds.
  do 2 eexists.
  split; [by rewrite H1|]. split; [by rewrite H2|].
  split; [exact Hda|]. split; [exact Hds|].
  split; intros Hund.
  - exact (drop_list_all_und languages _ _ Hda Hund).
  - exact (drop_list_all_und languages _ _ Hds Hund).
Qed.

Lemma map_streams_drops_exactly_witness :
  let mf := movie_mkv "aac" "ac3" "subrip" [] in
  Forall (fun s => to_be_dropped ["jpn"] s -> has_record_fields s)
    (audio_streams (info mf))
  /\ Forall (fun s => to_be_dropped ["jpn"] s -> has_record_fields s)
       (subtitle_streams (info mf))
  /\ fst (_map_streams ["jpn"] mf "audio" empty_state) = Ok [1%Z]
  /\ fst (_map_streams ["jpn"] mf "subtitle" empty_state) = Ok [0%Z]
  /\ drop_list ["jpn"] (audio_streams (info mf)) [1%Z]
  /\ drop_list ["jpn"] (subtitle_streams (info mf)) [0%Z].
Proof.
  intros mf.
  assert (forall l, Forall has_record_fields l ->
            Forall (fun s => to_be_dropped ["jpn"] s -> has_record_fields s) l)
    as Hweak.
  { intros l Hl. eapply Forall_impl; [exact Hl|]. by intros s Hs _. }
  assert (Forall has_record_fields (audio_streams (info mf))) as Ha.
  { repeat constructor; simpl; by eexists. }
  assert (Forall has_record_fields (subtitle_streams (info mf))) as Hs.
  { repeat constructor; simpl; by eexists. }
  split; [by apply Hweak|]. split; [by apply Hweak|].
  destruct (map_streams_drops_exactly ["jpn"] mf empty_state empty_state
              (Hweak _ Ha) (Hweak _ Hs))
    as (a & s & H1 & H2 & H3 & H4 & _).
  assert (a = [1%Z]) as -> by (vm_compute in H1; congruence).
  assert (s = [0%Z]) as -> by (vm_compute in H2; congruence).
  auto.
Defined.

(** The allow-list is matched by string equality, letter case included;
    with the empty allow-list a stream tagged "und" is kept and one tagged
    "fre" is dropped. *)
Example allow_list_examples (st : State) :
  let mf tag := {| path := "a.mkv";
                   info := {| container := "mkv";
                              audio_streams := [tagged_stream 3 "aac" tag];
                              video_streams := []; subtitle_streams := [] |} |} in
  fst (_map_streams ["eng"] (mf "ENG") "audio" st) = Ok [3%Z]
  /\ fst (_map_streams ["eng"] (mf "eng") "audio" st) = Ok []
  /\ fst (_map_streams [] (mf "und") "audio" st) = Ok []
  /\ fst (_map_streams [] (mf "fre") "audio" st) = Ok [3%Z].
Proof. repeat split; vm_compute; reflexivity. Qed.

(** A marked stream whose dictionary has no [codec_name] makes the log line
    of [_map_streams] raise: the hypothesis on marked streams is needed. *)
Example map_streams_missing_codec_name (st : State) :
  let s := {| index := Some 2%Z; codec_name := None;
              tags := Some {[ "language" := "fre" ]} |} in
  let mf := {| path := "a.mkv";
               info := {| container := "mkv"; audio_streams := [s];
                          video_streams := []; subtitle_streams := [] |} |} in
  fst (_map_streams [] mf "audio" st) = Raise (KeyError "codec_name").
Proof. vm_compute. reflexivity. Qed.

(** C2: for movie.mkv with audio streams 0 (jpn) and 1 (eng), subtitle
    stream 0 (eng) and allow-list [jpn], the audio drop indices are [1], the
    subtitle drop indices are [0], and the command line holds the tokens
    -0:a:1 and -0:s:0 and ends with the output path movie.cleaned.mkv. *)
Theorem scenario_movie_mkv (w : World) (c0 c1 c2 : string) (video : list Stream)
    (st : State) :
  let mf := movie_mkv c0 c1 c2 video in
  container_of w (path mf) = container (info mf)
  /\ fst (_map_streams ["jpn"] mf "audio" st) = Ok [1%Z]
  /\ fst (_map_streams ["jpn"] mf "subtitle" st) = Ok [0%Z]
  /\ _gen_cmdline mf [1%Z] [0%Z]
     = ["ffmpeg"; "-i"; "movie.mkv"; "-map"; "0"; "-map";
        "-0:a:1"; "-0:s:0"; "-c"; "copy"; "movie.cleaned.mkv"]
  /\ "-0:a:1" ∈ _gen_cmdline mf [1%Z] [0%Z]
  /\ "-0:s:0" ∈ _gen_cmdline mf [1%Z] [0%Z]
  /\ output_path mf = "movie.cleaned.mkv"
  /\ List.last (_gen_cmdline mf [1%Z] [0%Z]) "" = output_path mf
  /\ exists script,
       fst (process_media_files [mf] ["jpn"] st) = Ok script
       /\ script = "#!/bin/bash" +:+ nl +:+ nl
                   +:+ "echo " +:+ dq +:+ "Processing movie.mkv..." +:+ dq +:+ nl
                   +:+ "ffmpeg -i movie.mkv -map 0 -map -0:a:1 -0:s:0 -c copy movie.cleaned.mkv"
                   +:+ nl +:+ nl.
Proof.
  intros mf.
  assert (_gen_cmdline mf [1%Z] [0%Z]
          = ["ffmpeg"; "-i"; "movie.mkv"; "-map"; "0"; "-map";
             "-0:a:1"; "-0:s:0"; "-c"; "copy"; "movie.cleaned.mkv"]) as Hcmd
    by (vm_compute; reflexivity).
  split; [by rewrite container_of_ascii|].
  split; [vm_compute; reflexivity|].
  split; [vm_compute; reflexivity|].
  split; [exact Hcmd|].
  rewrite Hcmd.
  split; [set_solver|]. split; [set_solver|].
  split; [vm_compute; reflexivity|].
  split; [vm_compute; reflexivity|].
  eexists. split; vm_compute; reflexivity.
Qed.

(** ** The command line of one file *)

Lemma fold_left_snoc {A B} (f : B -> A) (l : list B) (init : list A) :
  fold_left (fun acc x => acc ++ [f x]) l init = init ++ map f l.
Proof.
  revert init. induction l as [|x l IH]; intros init; simpl.
  - by rewrite app_nil_r.
  - rewrite IH, <- app_assoc. reflexivity.
Qed.

(** C3: the command line is ffmpeg -i <input> -map 0 -map, then one token
    -0:a:<index> per audio drop index in order, then one token -0:s:<index>
    per subtitle drop index in order, then -c copy <output>; there is one
    exclusion token per dropped stream. *)
Theorem gen_cmdline_tokens (media_file : MediaFile)
    (audio_stream_ids subtitle_stream_ids : list Z) :
  _gen_cmdline media_file audio_stream_ids subtitle_stream_ids
  = ["ffmpeg"; "-i"; path media_file; "-map"; "0"; "-map"]
    ++ map (fun i => "-0:a:" +:+ PyStr.of_int i) audio_stream_ids
    ++ map (fun i => "-0:s:" +:+ PyStr.of_int i) subtitle_stream_ids
    ++ ["-c"; "copy"; output_path media_file]
  /\ length (_gen_cmdline media_file audio_stream_ids subtitle_stream_ids)
     = 9 + length audio_stream_ids + length subtitle_stream_ids.
Proof.
  assert (_gen_cmdline media_file audio_stream_ids subtitle_stream_ids
          = ["ffmpeg"; "-i"; path media_file; "-map"; "0"; "-map"]
            ++ map (fun i => "-0:a:" +:+ PyStr.of_int i) audio_stream_ids
            ++ map (fun i => "-0:s:" +:+ PyStr.of_int i) subtitle_stream_ids
            ++ ["-c"; "copy"; output_path media_file]) as Heq.
  { unfold _gen_cmdline.
    rewrite (fold_left_snoc (fun i => "-0:a:" +:+ PyStr.of_int i)).
    rewrite (fold_left_snoc (fun i => "-0:s:" +:+ PyStr.of_int i)).
    by rewrite <- !app_assoc. }
  split; [exact Heq|].
  rewrite Heq. rewrite !length_app, !length_map. simpl. lia.
Qed.

(** ** The output path *)

Section StringFacts.

Lemma string_app_nil_l (s : string) : "" +:+ s = s.
Proof. reflexivity. Qed.

Lemma string_app_cons (c : ascii) (s t : string) :
  String c s +:+ t = String c (s +:+ t).
Proof. reflexivity. Qed.

Lemma string_app_nil_r (s : string) : s +:+ "" = s.
Proof.
  induction s as [|c s IH]; [reflexivity|].
  by rewrite string_app_cons, IH.
Qed.

Lemma string_app_assoc (s t u : string) : (s +:+ t) +:+ u = s +:+ (t +:+ u).
Proof.
  induction s as [|c s IH]; [reflexivity|].
  by rewrite !string_app_cons, IH.
Qed.

Lemma string_length_app (s t : string) :
  String.length (s +:+ t) = String.length s + String.length t.
Proof.
  induction s as [|c s IH]; [reflexivity|].
  rewrite string_app_cons. simpl. by rewrite IH.
Qed.

Lemma startswith_app (p s : string) :
  PyStr.startswith p s = true <-> exists post, s = p +:+ post.
Proof.
  revert s. induction p as [|a p IH]; intros s; simpl.
  - split; [|done]. intros _. by exists s.
  - destruct s as [|b s].
    + split; [done|]. by intros [post Hpost].
    + destruct (Ascii.eqb_spec a b) as [->|Hne].
      * rewrite IH. split.
        -- intros [post ->]. by exists post.
        -- intros [post Hpost]. rewrite string_app_cons in Hpost.
           exists post. congruence.
      * split; [done|]. intros [post Hpost].
        rewrite string_app_cons in Hpost. congruence.
Qed.

End StringFacts.

Lemma replace_go_skip old new (a b : string) :
  PyStr.replace_go old new (String.length a) (a +:+ b) = PyStr.replace_go old new 0 b.
Proof.
  induction a as [|c a IH]; simpl.
  - rewrite string_app_nil_l. reflexivity.
  - exact IH.
Qed.

Lemma replace_go_unfold old new c s :
  PyStr.replace_go old new 0 (String c s)
  = if PyStr.startswith old (String c s) then
      match old with
      | EmptyString => new +:+ String c (PyStr.replace_go old new 0 s)
      | String _ old' => new +:+ PyStr.replace_go old new (String.length old') s
      end
    else String c (PyStr.replace_go old new 0 s).
Proof. reflexivity. Qed.

Lemma replace_go_match old new post :
  old <> "" ->
  PyStr.replace_go old new 0 (old +:+ post)
  = new +:+ PyStr.replace_go old new 0 post.
Proof.
  intros Hold. destruct old as [|o old']; [done|].
  rewrite string_app_cons, replace_go_unfold.
  assert (PyStr.startswith (String o old') (String o (old' +:+ post)) = true) as ->.
  { apply startswith_app. exists post. by rewrite string_app_cons. }
  by rewrite replace_go_skip.
Qed.

Lemma replace_go_no_match old new c s :
  PyStr.startswith old (String c s) = false ->
  PyStr.replace_go old new 0 (String c s) = String c (PyStr.replace_go old new 0 s).
Proof. intros H. by rewrite replace_go_unfold, H. Qed.

Lemma replaced_all_cons old new c s t :
  PyStr.startswith old (String c s) = false ->
  replaced_all old new s t ->
  replaced_all old new (String c s) (String c t).
Proof.
  intros Hstart Hrep.
  assert (forall pre, occurs_after old (String c s) pre ->
            exists pre', pre = String c pre' /\ occurs_after old s pre') as Hshift.
  { intros [|a pre] [post Hpost].
    - rewrite string_app_nil_l in Hpost.
      assert (PyStr.startswith old (String c s) = true) as Ht
        by (apply startswith_app; by exists post).
      congruence.
    - rewrite string_app_cons in Hpost. injection Hpost as -> Hs.
      exists pre. split; [done|]. by exists post. }
  inversion Hrep as [s0 Hnone Heq1 Heq2 | pre post t' Hfirst Hrest Heq1 Heq2]; subst.
  - apply replaced_none. intros pre Hocc.
    destruct (Hshift pre Hocc) as (pre' & -> & Hocc'). by apply (Hnone pre').
  - rewrite <- !string_app_cons. apply replaced_step; [|done].
    intros pre' Hocc. rewrite string_app_cons in Hocc.
    destruct (Hshift pre' Hocc) as (pre'' & -> & Hocc').
    simpl. apply le_n_S. by apply Hfirst.
Qed.

Lemma replace_go_replaced_all old new :
  old <> "" ->
  forall n s, String.length s <= n ->
    replaced_all old new s (PyStr.replace_go old new 0 s).
Proof.
  intros Hold. induction n as [|n IH]; intros s Hlen.
  - destruct s as [|c s]; [|simpl in Hlen; lia].
    destruct old as [|o old']; [done|]. simpl.
    apply replaced_none. intros pre [post Hpost].
    destruct pre; discriminate.
  - destruct s as [|c s].
    { destruct old as [|o old']; [done|]. simpl.
      apply replaced_none. intros pre [post Hpost]. destruct pre; discriminate. }
    destruct (PyStr.startswith old (String c s)) eqn:Hstart.
    + apply startswith_app in Hstart as [post Hpost]. rewrite Hpost.
      rewrite replace_go_match by done.
      rewrite <- (string_app_nil_l (old +:+ post)).
      rewrite <- (string_app_nil_l (new +:+ _)).
      apply replaced_step.
      * intros pre' _. simpl. lia.
      * apply IH.
        assert (String.length (String c s) = String.length old + String.length post)
          as Hl by (by rewrite Hpost, string_length_app).
        destruct old as [|o old']; [done|]. simpl in Hl, Hlen. lia.
    + rewrite replace_go_no_match by done.
      apply replaced_all_cons; [done|].
      apply IH. simpl in Hlen. lia.
Qed.

(** C4 (as stated): the output path is the input path with only the first
    occurrence of the container replaced.  It is not: for [mkv/a.mkv] both
    occurrences of [mkv] are replaced. *)
Lemma output_path_not_first_occurrence_only :
  output_path nested_mkv = "cleaned.mkv/a.cleaned.mkv"
  /\ replace_first (path nested_mkv) (container (info nested_mkv))
       ("cleaned." +:+ container (info nested_mkv)) = "cleaned.mkv/a.mkv"
  /\ output_path nested_mkv
     <> replace_first (path nested_mkv) (container (info nested_mkv))
          ("cleaned." +:+ container (info nested_mkv)).
Proof. split; [reflexivity|]. split; [reflexivity|]. discriminate. Qed.

(** C4 (amended): the output path is the input path with every occurrence
    of the container replaced by cleaned.<container>, occurrences being
    found left to right without overlap. *)
Theorem output_path_replaces_every_occurrence (media_file : MediaFile) :
  container (info media_file) <> "" ->
  replaced_all (container (info media_file))
    ("cleaned." +:+ container (info media_file))
    (path media_file) (output_path media_file).
Proof.
  intros Hne. unfold output_path, PyStr.replace.
  by apply (replace_go_replaced_all _ _ Hne (String.length (path media_file))).
Qed.

Lemma output_path_replaces_every_occurrence_witness :
  container (info nested_mkv) <> ""
  /\ replaced_all "mkv" "cleaned.mkv" "mkv/a.mkv" "cleaned.mkv/a.cleaned.mkv".
Proof.
  split; [discriminate|].
  apply (output_path_replaces_every_occurrence nested_mkv). discriminate.
Defined.

(** ** Inventory *)

Lemma runs_canonical {A} (c : M A) r evs :
  runs c r evs -> runs c (outcome c) (events c).
Proof.
  intros Hc. unfold outcome, events. rewrite (Hc empty_state). simpl. exact Hc.
Qed.

Lemma runs_outcome {A} (c : M A) r evs : runs c r evs -> outcome c = r.
Proof. intros Hc. unfold outcome. by rewrite Hc. Qed.

Lemma runs_events {A} (c : M A) r evs : runs c r evs -> events c = evs.
Proof. intros Hc. unfold events. by rewrite Hc. Qed.

Section InventoryFacts.

Variable w : World.

Lemma __stream_info_runs p kind :
  runs (__stream_info w p kind) (ffprobe w kind p) [Probe kind p].
Proof. by intros st. Qed.

(** The three ffprobe runs, in the order audio, video, subtitle; the
    first one that raises ends the reading. *)
Lemma _read_ffmpeg_info_runs p :
  (exists a v s,
      ffprobe w "a" p = Ok a /\ ffprobe w "v" p = Ok v /\ ffprobe w "s" p = Ok s
      /\ runs (_read_ffmpeg_info w p) (Ok (a, v, s))
           [Probe "a" p; Probe "v" p; Probe "s" p])
  \/ (exists e evs,
         (ffprobe w "a" p = Raise e \/ ffprobe w "v" p = Raise e
          \/ ffprobe w "s" p = Raise e)
         /\ runs (_read_ffmpeg_info w p) (Raise e) evs).
Proof.
  unfold _read_ffmpeg_info.
  pose proof (__stream_info_runs p "a") as Ha.
  pose proof (__stream_info_runs p "v") as Hv.
  pose proof (__stream_info_runs p "s") as Hs.
  destruct (ffprobe w "a" p) as [a|e] eqn:Ea.
  2:{ right. exists e, [Probe "a" p]. split; [auto|]. by apply runs_bind_raise. }
  destruct (ffprobe w "v" p) as [v|e] eqn:Ev.
  2:{ right. exists e, ([Probe "a" p] ++ [Probe "v" p]). split; [auto|].
      eapply runs_bind; [exact Ha|]. by apply runs_bind_raise. }
  destruct (ffprobe w "s" p) as [s|e] eqn:Es.
  2:{ right. exists e, ([Probe "a" p] ++ [Probe "v" p] ++ [Probe "s" p]).
      split; [auto|].
      eapply runs_bind; [exact Ha|]. eapply runs_bind; [exact Hv|].
      by apply runs_bind_raise. }
  left. exists a, v, s. do 3 (split; [done|]).
  change [Probe "a" p; Probe "v" p; Probe "s" p]
    with ([Probe "a" p] ++ [Probe "v" p] ++ [Probe "s" p] ++ []).
  eapply runs_bind; [exact Ha|]. eapply runs_bind; [exact Hv|].
  eapply runs_bind; [exact Hs|]. apply runs_ret.
Qed.

Lemma MediaFileInfo_from_path_runs p :
  exists r evs,
    runs (MediaFileInfo_from_path w p) r evs /\ from_path_case w p r evs.
Proof.
  unfold MediaFileInfo_from_path.
  destruct (PyStr.contains_char "." p) eqn:Hdot; simpl.
  2:{ do 2 eexists. split; [apply runs_raise|]. by constructor. }
  destruct (path_exists w p) eqn:Hex; simpl.
  2:{ do 2 eexists. split; [apply runs_raise|]. by constructor. }
  destruct (decide (container_of w p ∈ known_containers)) as [Hin|Hout].
  - rewrite bool_decide_eq_true_2 by done. simpl.
    destruct (_read_ffmpeg_info_runs p)
      as [(a & v & s & Ha & Hv & Hs & Hrun) | (e & evs & Hfail & Hrun)].
    + do 2 eexists. split.
      * eapply runs_bind; [exact Hrun|]. apply runs_ret.
      * rewrite app_nil_r. by constructor.
    + do 2 eexists. split.
      * by apply runs_bind_raise.
      * by constructor.
  - rewrite bool_decide_eq_false_2 by done. simpl.
    do 2 eexists. split; [apply runs_ret|]. by constructor.
Qed.

Lemma MediaFile_from_path_runs p :
  exists r evs,
    runs (MediaFile_from_path w p) r evs
    /\ (forall mf, r = Ok mf -> path mf = p)
    /\ exists r', from_path_case w p r' evs
                  /\ match r' with
                     | Ok i => r = Ok {| path := p; info := i |}
                     | Raise e => r = Raise e
                     end.
Proof.
  destruct (MediaFileInfo_from_path_runs p) as (r & evs & Hrun & Hcase).
  unfold MediaFile_from_path.
  destruct r as [i|e].
  - exists (Ok {| path := p; info := i |}), evs. split; [|split].
    + rewrite <- (app_nil_r evs). eapply runs_bind; [exact Hrun|]. apply runs_ret.
    + intros mf [= <-]. reflexivity.
    + by exists (Ok i).
  - exists (Raise e), evs. split; [|split].
    + by apply runs_bind_raise.
    + intros mf [=].
    + by exists (Raise e).
Qed.

Lemma scan_one_runs p :
  runs (MediaFile_from_path w p) (scan_one w p) (events (MediaFile_from_path w p)).
Proof.
  destruct (MediaFile_from_path_runs p) as (r & evs & Hrun & _).
  by eapply runs_canonical.
Qed.

Lemma scan_one_any_state p st : fst (MediaFile_from_path w p st) = scan_one w p.
Proof. by rewrite (scan_one_runs p st). Qed.

Lemma scan_one_path p mf : scan_one w p = Ok mf -> path mf = p.
Proof.
  intros Hmf.
  destruct (MediaFile_from_path_runs p) as (r & evs & Hrun & Hpath & _).
  apply Hpath. by rewrite <- (runs_outcome _ _ _ Hrun).
Qed.

(** [from_path] only makes the containers mkv, mp4, avi and unknown; none
    of them is the empty string. *)
Lemma scan_one_container p mf :
  scan_one w p = Ok mf ->
  (container (info mf) ∈ known_containers \/ container (info mf) = "unknown")
  /\ container (info mf) <> "".
Proof.
  intros Hmf.
  destruct (MediaFile_from_path_runs p) as (r & evs & Hrun & _ & r' & Hcase & Hr).
  unfold scan_one in Hmf. rewrite (runs_outcome _ _ _ Hrun) in Hmf. subst r.
  assert (container (info mf) ∈ known_containers \/ container (info mf) = "unknown")
    as Hc.
  { destruct Hcase; try done; simplify_eq; cbn [info container]; auto. }
  split; [exact Hc|].
  destruct Hc as [Hc| ->]; [|discriminate].
  intros Hempty. rewrite Hempty in Hc.
  repeat (apply elem_of_cons in Hc as [Hc|Hc]; [discriminate|]).
  by apply elem_of_nil in Hc.
Qed.

(** A probe that raises makes the scan of the file raise. *)
Lemma probe_failure_raises p kind e :
  PyStr.contains_char "." p = true -> path_exists w p = true ->
  container_of w p ∈ known_containers ->
  kind ∈ ["a"; "v"; "s"] -> ffprobe w kind p = Raise e ->
  exists e', scan_one w p = Raise e'.
Proof.
  intros Hdot Hex Hknown Hkind Hfail.
  destruct (MediaFile_from_path_runs p) as (r & evs & Hrun & _ & r' & Hcase & Hr).
  unfold scan_one. rewrite (runs_outcome _ _ _ Hrun).
  destruct Hcase; try congruence; try (by eexists).
  repeat (apply elem_of_cons in Hkind as [->|Hkind]; [congruence|]).
  by apply elem_of_nil in Hkind.
Qed.

End InventoryFacts.

Section ScanFacts.

Variable w : World.

Lemma scanned_cons_ok f files mf :
  scan_one w f = Ok mf -> scanned w (f :: files) = mf :: scanned w files.
Proof. intros Hf. unfold scanned. simpl. by rewrite Hf. Qed.

Lemma scanned_cons_raise f files e :
  scan_one w f = Raise e -> scanned w (f :: files) = scanned w files.
Proof. intros Hf. unfold scanned. simpl. by rewrite Hf. Qed.

Lemma read_step_runs f acc :
  runs (read_step w f acc)
    (Ok (acc ++ scanned w [f])) (scan_events w f).
Proof.
  pose proof (scan_one_runs w f) as Hf.
  unfold read_step, scan_events.
  destruct (scan_one w f) as [mf|e] eqn:Hone.
  - rewrite (scanned_cons_ok f [] mf Hone).
    apply runs_try_ok. eapply runs_bind; [exact Hf|]. apply runs_ret.
  - rewrite (scanned_cons_raise f [] e Hone).
    change (scanned w []) with (@nil MediaFile). rewrite app_nil_r.
    eapply runs_try_raise.
    + apply runs_bind_raise. exact Hf.
    + change [LogError e] with ([LogError e] ++ []).
      eapply runs_bind; [apply runs_emit|]. apply runs_ret.
Qed.

Lemma read_loop_unfold f files acc :
  read_loop w (f :: files) acc
  = bind (read_step w f acc) (fun media_files' => read_loop w files media_files').
Proof. reflexivity. Qed.

Lemma read_loop_runs files acc :
  runs (read_loop w files acc) (Ok (acc ++ scanned w files))
    (concat (map (scan_events w) files)).
Proof.
  revert acc. induction files as [|f files IH]; intros acc.
  - change (scanned w []) with (@nil MediaFile). rewrite app_nil_r. apply runs_ret.
  - rewrite read_loop_unfold.
    change (concat (map (scan_events w) (f :: files)))
      with (scan_events w f ++ concat (map (scan_events w) files)).
    eapply runs_bind; [apply read_step_runs|].
    assert (acc ++ scanned w (f :: files)
            = (acc ++ scanned w [f]) ++ scanned w files) as ->.
    { rewrite <- app_assoc. f_equal. unfold scanned.
      change (f :: files) with ([f] ++ files). apply omap_app. }
    apply IH.
Qed.

Lemma walk_loop_runs p exts acc :
  runs (walk_loop w p exts acc)
    (Ok (acc ++ concat (map (fun ext => rglob w p ("*." +:+ ext)) exts)))
    (map (fun ext => Walk p ("*." +:+ ext)) exts).
Proof.
  revert acc. induction exts as [|ext exts IH]; intros acc; simpl.
  - rewrite app_nil_r. apply runs_ret.
  - change (Walk p ("*." +:+ ext) :: ?l) with ([Walk p ("*." +:+ ext)] ++ l).
    eapply runs_bind; [apply runs_emit|].
    rewrite app_assoc. apply IH.
Qed.

Lemma walk_known_containers p :
  runs (walk_loop w p known_containers []) (Ok (enumerated w p))
    [Walk p "*.mkv"; Walk p "*.mp4"; Walk p "*.avi"].
Proof.
  pose proof (walk_loop_runs p known_containers []) as Hwalk.
  assert ([] ++ concat (map (fun ext => rglob w p ("*." +:+ ext)) known_containers)
          = enumerated w p) as Heq.
  { unfold enumerated, known_containers. cbn [map concat app].
    by rewrite app_nil_r. }
  by rewrite Heq in Hwalk.
Qed.

Lemma bind_runs_Ok {A B} (c : M A) (k : A -> M B) a evs st :
  runs c (Ok a) evs ->
  bind c k st = k a {| pickle_file := pickle_file st; trace := trace st ++ evs |}.
Proof. intros Hc. unfold bind. by rewrite Hc. Qed.

(** The [else] branch of [find_media_files], run to its end. *)
Lemma find_media_files_fresh p cached st :
  cached = false \/ pickle_file st = None ->
  find_media_files w p cached st
  = (Ok (scanned w (enumerated w p)),
     {| pickle_file := Some (Ok (scanned w (enumerated w p)));
        trace := trace st ++ fresh_scan_events w p |}).
Proof.
  intros Hfresh. unfold find_media_files, bind at 1, pickle_exists.
  assert (bool_decide (is_Some (pickle_file st)) && cached = false) as ->.
  { destruct Hfresh as [-> | ->].
    - apply andb_false_r.
    - rewrite bool_decide_eq_false_2; [done|]. by intros [? ?]. }
  unfold logging_info.
  rewrite (bind_runs_Ok _ _ _ _ _ (runs_emit _)).
  rewrite (bind_runs_Ok _ _ _ _ _ (walk_known_containers p)).
  rewrite (bind_runs_Ok _ _ _ _ _ (runs_emit _)).
  rewrite (bind_runs_Ok _ _ _ _ _ (read_loop_runs (enumerated w p) [])).
  rewrite (bind_runs_Ok _ _ _ _ _ (runs_emit _)).
  unfold bind, pickle_dump, ret, fresh_scan_events. cbn [pickle_file trace].
  rewrite app_nil_l. f_equal. f_equal.
  rewrite <- !app_assoc. reflexivity.
Qed.

(** The [if] branch of [find_media_files]. *)
Lemma find_media_files_cached p st content :
  pickle_file st = Some content ->
  find_media_files w p true st
  = (content,
     {| pickle_file := pickle_file st;
        trace := trace st
                 ++ [LogInfo ("Starting from a cached file scan in "
                              +:+ dq +:+ "media.pickle" +:+ dq);
                     PickleLoad] |}).
Proof.
  intros Hfile. unfold find_media_files, bind at 1, pickle_exists.
  rewrite bool_decide_eq_true_2 by (rewrite Hfile; by eexists). simpl.
  unfold bind, logging_info, emit, pickle_load. simpl. rewrite Hfile.
  rewrite <- app_assoc. simpl. by destruct content.
Qed.

Lemma scanned_app l1 l2 : scanned w (l1 ++ l2) = scanned w l1 ++ scanned w l2.
Proof. unfold scanned. apply omap_app. Qed.

Lemma scanned_all_ok files :
  Forall (fun g => exists mf, scan_one w g = Ok mf) files ->
  map path (scanned w files) = files
  /\ Forall2 (fun g mf => scan_one w g = Ok mf) files (scanned w files).
Proof.
  induction 1 as [|g files [mf Hmf] Hfiles [IH1 IH2]]; simpl.
  - split; constructor.
  - unfold scanned in *. simpl. rewrite Hmf. simpl.
    rewrite IH1, (scan_one_path w g mf Hmf). split; [done|]. by constructor.
Qed.

Lemma scanned_failing f e : scan_one w f = Raise e -> scanned w [f] = [].
Proof. intros Hf. unfold scanned. simpl. by rewrite Hf. Qed.

End ScanFacts.

Section ScanTrace.

Variable w : World.

Lemma scan_events_in_fresh p g ev :
  g ∈ enumerated w p -> ev ∈ scan_events w g -> ev ∈ fresh_scan_events w p.
Proof.
  intros Hg Hev. unfold fresh_scan_events.
  apply elem_of_app. right. apply elem_of_app. left.
  apply list_elem_of_In, in_concat. exists (scan_events w g). split.
  - apply in_map. by apply list_elem_of_In.
  - by apply list_elem_of_In.
Qed.

Lemma scan_one_probes g mf :
  scan_one w g = Ok mf -> container_of w g ∈ known_containers ->
  events (MediaFile_from_path w g) = [Probe "a" g; Probe "v" g; Probe "s" g].
Proof.
  intros Hok Hknown.
  destruct (MediaFile_from_path_runs w g) as (r & evs & Hrun & _ & r' & Hcase & Hr).
  rewrite (runs_events _ _ _ Hrun).
  assert (r = Ok mf) as -> by (by rewrite <- (runs_outcome _ _ _ Hrun)).
  destruct Hcase; try done.
Qed.

End ScanTrace.

(** C5: in a fresh scan of N enumerated files of which exactly one raises
    (a failing probe being one way to raise), the scan returns, the result
    has N-1 entries, the failing file is not among them, its error is
    logged, every other file is in the result with what its probing gave,
    and the result is what is stored in the snapshot. *)
Theorem scan_skips_failing_file (w : World) (p : string) (cached : bool)
    (st : State) (l1 l2 : list string) (f : string) (e : exn) :
  cached = false \/ pickle_file st = None ->
  enumerated w p = l1 ++ f :: l2 ->
  scan_one w f = Raise e ->
  Forall (fun g => exists mf, scan_one w g = Ok mf) (l1 ++ l2) ->
  exists media_files st',
    find_media_files w p cached st = (Ok media_files, st')
    /\ length media_files = length (enumerated w p) - 1
    /\ map path media_files = l1 ++ l2
    /\ (f ∉ map path media_files)
    /\ LogError e ∈ trace st'
    /\ Forall2 (fun g mf => scan_one w g = Ok mf) (l1 ++ l2) media_files
    /\ (forall g, g ∈ l1 ++ l2 -> container_of w g ∈ known_containers ->
          Probe "a" g ∈ trace st' /\ Probe "v" g ∈ trace st'
          /\ Probe "s" g ∈ trace st')
    /\ pickle_file st' = Some (Ok media_files).
Proof.
  intros Hfresh Henum Hf Hrest.
  do 2 eexists. split; [by apply find_media_files_fresh|].
  assert (scanned w (enumerated w p) = scanned w (l1 ++ l2)) as Hscan.
  { rewrite Henum, (cons_middle f), !scanned_app, (scanned_failing w f e Hf).
    reflexivity. }
  destruct (scanned_all_ok w _ Hrest) as [Hpaths Hall].
  rewrite Hscan. cbn [pickle_file trace].
  split.
  { rewrite <- (length_map path), Hpaths, Henum, !length_app. simpl. lia. }
  split; [exact Hpaths|].
  split.
  { rewrite Hpaths. intros Hin.
    rewrite Forall_forall in Hrest. destruct (Hrest f Hin) as [mf Hmf]. congruence. }
  split.
  { apply elem_of_app. right.
    eapply (scan_events_in_fresh w p f).
    - rewrite Henum. in_list.
    - unfold scan_events. rewrite Hf. in_list. }
  split; [exact Hall|].
  split; [|reflexivity].
  intros g Hg Hknown.
  rewrite Forall_forall in Hrest. destruct (Hrest g Hg) as [mf Hmf].
  assert (g ∈ enumerated w p) as Hin.
  { rewrite Henum. apply elem_of_app in Hg as [Hg|Hg].
    - apply elem_of_app. by left.
    - apply elem_of_app. right. by apply list_elem_of_further. }
  assert (forall ev, ev ∈ [Probe "a" g; Probe "v" g; Probe "s" g] ->
            ev ∈ trace st ++ fresh_scan_events w p) as Hev.
  { intros ev Hev. apply elem_of_app. right.
    eapply (scan_events_in_fresh w p g); [exact Hin|]. unfold scan_events.
    rewrite (scan_one_probes w g mf Hmf Hknown).
    apply elem_of_app. by left. }
  repeat split; apply Hev; in_list.
Qed.

Lemma scan_skips_failing_file_witness :
  let e := CalledProcessError (ffprobe_cmd "a" "lib/b.mkv") in
  (false = false \/ pickle_file empty_state = None)
  /\ enumerated demo_world "lib" = ["lib/a.mkv"] ++ "lib/b.mkv" :: ["lib/c.mp4"]
  /\ scan_one demo_world "lib/b.mkv" = Raise e
  /\ Forall (fun g => exists mf, scan_one demo_world g = Ok mf)
       (["lib/a.mkv"] ++ ["lib/c.mp4"])
  /\ exists media_files st',
       find_media_files demo_world "lib" false empty_state = (Ok media_files, st')
       /\ length media_files = 2
       /\ map path media_files = ["lib/a.mkv"; "lib/c.mp4"]
       /\ LogError e ∈ trace st'.
Proof.
  intros e.
  assert (Forall (fun g => exists mf, scan_one demo_world g = Ok mf)
            (["lib/a.mkv"] ++ ["lib/c.mp4"])) as Hrest.
  { repeat constructor; eexists; vm_compute; reflexivity. }
  split; [by left|]. split; [reflexivity|]. split; [reflexivity|].
  split; [exact Hrest|].
  destruct (scan_skips_failing_file demo_world "lib" false empty_state
              ["lib/a.mkv"] ["lib/c.mp4"] "lib/b.mkv" e
              (or_introl eq_refl) eq_refl eq_refl Hrest)
    as (mfs & st' & H1 & H2 & H3 & _ & H5 & _).
  exists mfs, st'. auto.
Defined.

(** C6: with [cached] set and [media.pickle] present, [find_media_files]
    returns what loading the snapshot yields, unchanged; it logs one line and
    loads the file, and does no walk, no probe and no snapshot write, and
    [media.pickle] is as before. *)
Theorem cached_scan_returns_snapshot (w : World) (p : string) (st : State)
    (content : result (list MediaFile)) :
  pickle_file st = Some content ->
  exists st' evs,
    find_media_files w p true st = (content, st')
    /\ pickle_file st' = pickle_file st
    /\ trace st' = trace st ++ evs
    /\ Forall (fun ev => ~ is_scan_effect ev) evs
    /\ (forall snapshot, content = Ok snapshot ->
          fst (find_media_files w p true st) = Ok snapshot).
Proof.
  intros Hfile. do 2 eexists.
  rewrite (find_media_files_cached w p st content Hfile).
  split; [reflexivity|]. split; [reflexivity|]. split; [reflexivity|].
  split.
  - repeat constructor; simpl; tauto.
  - by intros snapshot ->.
Qed.

Lemma cached_scan_returns_snapshot_witness :
  let snapshot := [movie_mkv "aac" "ac3" "subrip" []] in
  let st := {| pickle_file := Some (Ok snapshot); trace := [] |} in
  pickle_file st = Some (Ok snapshot)
  /\ exists st' evs,
       find_media_files demo_world "lib" true st = (Ok snapshot, st')
       /\ pickle_file st' = pickle_file st
       /\ trace st' = trace st ++ evs
       /\ Forall (fun ev => ~ is_scan_effect ev) evs.
Proof.
  intros snapshot st. split; [reflexivity|].
  destruct (cached_scan_returns_snapshot demo_world "lib" st (Ok snapshot) eq_refl)
    as (st' & evs & H1 & H2 & H3 & H4 & _).
  exists st', evs. auto.
Defined.

(** What [from_path] makes with the container "unknown" has no streams, and
    [from_path] leaves the state as it is when it stops before the probes. *)
Lemma from_path_stops_early (w : World) (p : string) (st : State) :
  (forall i, fst (MediaFileInfo_from_path w p st) = Ok i ->
     container i = "unknown" ->
     audio_streams i = [] /\ video_streams i = [] /\ subtitle_streams i = [])
  /\ (container_of w p ∉ known_containers \/ PyStr.contains_char "." p = false
      \/ path_exists w p = false ->
      snd (MediaFileInfo_from_path w p st) = st
      /\ forall kind file, Probe kind file ∉ events (MediaFileInfo_from_path w p)).
Proof.
  destruct (MediaFileInfo_from_path_runs w p) as (r & evs & Hrun & Hcase).
  rewrite (Hrun st), (runs_events _ _ _ Hrun). cbn [fst snd].
  assert ("unknown" ∉ known_containers) as Hunk.
  { apply (bool_decide_unpack _). vm_compute. exact I. }
  split.
  - intros i -> Hi. inversion Hcase; subst; try done.
    cbn [container] in Hi. congruence.
  - intros Hskip.
    assert (evs = []) as ->.
    { destruct Hcase; try done; destruct Hskip as [?|[?|?]]; congruence. }
    rewrite app_nil_r. split; [by destruct st|]. intros kind file.
    apply not_elem_of_nil.
Qed.

(** C10: with [cached] set but no [media.pickle], [find_media_files] does
    exactly what it does with [cached] unset: it walks the root for the
    three extensions, scans every enumerated file, stores the result in
    [media.pickle] and returns it. *)
Theorem cached_without_snapshot_scans_afresh (w : World) (p : string) (st : State) :
  pickle_file st = None ->
  find_media_files w p true st = find_media_files w p false st
  /\ exists media_files st',
       find_media_files w p true st = (Ok media_files, st')
       /\ media_files = scanned w (enumerated w p)
       /\ pickle_file st' = Some (Ok media_files)
       /\ trace st' = trace st ++ fresh_scan_events w p
       /\ Walk p "*.mkv" ∈ trace st' /\ Walk p "*.mp4" ∈ trace st'
       /\ Walk p "*.avi" ∈ trace st'
       /\ PickleDump media_files ∈ trace st'
       /\ (forall g ev, g ∈ enumerated w p ->
             ev ∈ events (MediaFile_from_path w g) -> ev ∈ trace st').
Proof.
  intros Hnone.
  rewrite (find_media_files_fresh w p true st (or_intror Hnone)).
  rewrite (find_media_files_fresh w p false st (or_introl eq_refl)).
  split; [reflexivity|].
  do 2 eexists. split; [reflexivity|]. cbn [pickle_file trace].
  do 3 (split; [reflexivity|]).
  assert (forall ev, ev ∈ fresh_scan_events w p ->
            ev ∈ trace st ++ fresh_scan_events w p) as Hin.
  { intros ev Hev. apply elem_of_app. by right. }
  do 3 (split; [apply Hin; unfold fresh_scan_events; in_list|]).
  split.
  { apply Hin. unfold fresh_scan_events. do 2 (apply elem_of_app; right). in_list. }
  intros g ev Hg Hev. apply Hin.
  eapply (scan_events_in_fresh w p g); [exact Hg|]. unfold scan_events.
  apply elem_of_app. by left.
Qed.

Lemma cached_without_snapshot_scans_afresh_witness :
  pickle_file empty_state = None
  /\ find_media_files demo_world "lib" true empty_state
     = find_media_files demo_world "lib" false empty_state
  /\ exists media_files st',
       find_media_files demo_world "lib" true empty_state = (Ok media_files, st')
       /\ map path media_files = ["lib/a.mkv"; "lib/c.mp4"]
       /\ pickle_file st' = Some (Ok media_files).
Proof.
  split; [reflexivity|].
  destruct (cached_without_snapshot_scans_afresh demo_world "lib" empty_state eq_refl)
    as (H1 & mfs & st' & H2 & H3 & H4 & _).
  split; [exact H1|].
  exists mfs, st'. split; [exact H2|]. split; [|exact H4].
  rewrite H3. vm_compute. reflexivity.
Defined.

(** ** The script *)

Lemma oblivious_ret {A} (a : A) : oblivious (ret a).
Proof. do 2 eexists. apply runs_ret. Qed.

Lemma oblivious_raise {A} (e : exn) : oblivious (@raise A e).
Proof. do 2 eexists. apply runs_raise. Qed.

Lemma oblivious_emit ev : oblivious (emit ev).
Proof. do 2 eexists. apply runs_emit. Qed.

Lemma oblivious_bind {A B} (c : M A) (k : A -> M B) :
  oblivious c -> (forall a, oblivious (k a)) -> oblivious (bind c k).
Proof.
  intros (r & evs & Hc) Hk. destruct r as [a|e].
  - destruct (Hk a) as (r' & evs' & Hk'). do 2 eexists. by eapply runs_bind.
  - do 2 eexists. by apply runs_bind_raise.
Qed.

Lemma oblivious_fst {A} (c : M A) st1 st2 :
  oblivious c -> fst (c st1) = fst (c st2).
Proof. intros (r & evs & Hc). by rewrite (Hc st1), (Hc st2). Qed.

Create HintDb oblivious.
#[local] Hint Resolve oblivious_ret oblivious_raise oblivious_emit : oblivious.

Lemma getitem_index_oblivious s : oblivious (getitem_index s).
Proof. unfold getitem_index. destruct (index s); auto with oblivious. Qed.

Lemma getitem_codec_name_oblivious s : oblivious (getitem_codec_name s).
Proof. unfold getitem_codec_name. destruct (codec_name s); auto with oblivious. Qed.

Lemma _map_streams_loop_oblivious p kind languages l acc :
  oblivious (_map_streams_loop p kind languages l acc).
Proof.
  revert acc. induction l as [|s l IH]; intros acc; simpl.
  - apply oblivious_ret.
  - destruct (drop_test languages (stream_language s)); [|apply IH].
    apply oblivious_bind; [apply getitem_index_oblivious|intros i].
    apply oblivious_bind; [apply getitem_codec_name_oblivious|intros c].
    apply oblivious_bind; [apply oblivious_emit|intros _].
    apply oblivious_bind; [apply getitem_index_oblivious|intros i'].
    apply IH.
Qed.

Lemma process_loop_unfold languages media_file rest script :
  process_loop languages (media_file :: rest) script
  = bind (_map_streams languages media_file "audio") (fun audio_stream_ids =>
    bind (_map_streams languages media_file "subtitle") (fun subtitle_stream_ids =>
      process_loop languages rest
        (((script +:+ ("echo " +:+ dq +:+ "Processing " +:+ path media_file
                       +:+ "..." +:+ dq +:+ nl))
          +:+ PyStr.join " "
                (map quote_arg
                   (_gen_cmdline media_file audio_stream_ids subtitle_stream_ids)))
         +:+ (nl +:+ nl)))).
Proof. reflexivity. Qed.

Lemma process_loop_oblivious languages media_files script :
  oblivious (process_loop languages media_files script).
Proof.
  revert script. induction media_files as [|mf rest IH]; intros script.
  - apply oblivious_ret.
  - rewrite process_loop_unfold.
    apply oblivious_bind; [apply _map_streams_loop_oblivious|intros a].
    apply oblivious_bind; [apply _map_streams_loop_oblivious|intros s].
    apply IH.
Qed.

Lemma process_loop_fst languages media_files :
  Forall (streams_are_records languages) media_files ->
  forall script st,
    fst (process_loop languages media_files script st)
    = Ok (script +:+ concat_strings (map (script_entry quote_arg languages) media_files)).
Proof.
  induction 1 as [|mf rest [Ha Hs] Hrest IH]; intros script st.
  - cbn [map concat_strings fold_right]. by rewrite string_app_nil_r.
  - rewrite process_loop_unfold.
    destruct (_map_streams_runs languages mf "audio" Ha) as [evs1 H1].
    destruct (_map_streams_runs languages mf "subtitle" Hs) as [evs2 H2].
    unfold bind. rewrite H1, H2, IH.
    cbn [map concat_strings fold_right].
    fold (concat_strings (map (script_entry quote_arg languages) rest)).
    unfold script_entry at 2, stream_ids.
    change (selected_streams mf "audio") with (audio_streams (info mf)).
    change (selected_streams mf "subtitle") with (subtitle_streams (info mf)).
    by rewrite !string_app_assoc.
Qed.

Lemma contains_char_In c s :
  PyStr.contains_char c s = true <-> In c (list_ascii_of_string s).
Proof.
  induction s as [|a s IH]; simpl.
  - split; [done|tauto].
  - destruct (Ascii.eqb_spec a c) as [->|Hne].
    + tauto.
    + rewrite IH. split; [tauto|]. intros [?|?]; [done|tauto].
Qed.

(** C8 (as stated): tokens are quoted exactly when they hold whitespace.
    They are not: the path of [tab_file] holds a tab, which is whitespace,
    and is written to the script unquoted. *)
Lemma script_does_not_quote_tab :
  existsb Ascii.is_space (list_ascii_of_string (path tab_file)) = true
  /\ path tab_file ∈ _gen_cmdline tab_file [] []
  /\ quote_arg (path tab_file) = path tab_file
  /\ quote_if_whitespace (path tab_file) = dq +:+ path tab_file +:+ dq
  /\ fst (process_media_files [tab_file] [] empty_state)
     = Ok (script_text quote_arg [] [tab_file])
  /\ script_text quote_arg [] [tab_file]
     <> script_text quote_if_whitespace [] [tab_file].
Proof.
  split; [reflexivity|].
  split; [unfold _gen_cmdline; simpl; in_list|].
  split; [reflexivity|]. split; [reflexivity|]. split; [reflexivity|].
  apply String.eqb_neq. vm_compute. reflexivity.
Qed.

(** C8 (amended): the script is the header line #!/bin/bash, a blank line,
    and then for each file in inventory order the line echo "Processing
    <path>...", the command line with its tokens joined by single spaces,
    and a blank line; a token is written between double quotes exactly when
    it holds a space character. *)
Theorem script_text_shape (languages : list string) (media_files : list MediaFile)
    (st : State) :
  Forall (streams_are_records languages) media_files ->
  fst (process_media_files media_files languages st)
  = Ok (script_text quote_arg languages media_files)
  /\ (exists rest,
         script_text quote_arg languages media_files
         = "#!/bin/bash" +:+ nl +:+ rest)
  /\ (forall arg,
         (In " "%char (list_ascii_of_string arg) ->
          quote_arg arg = dq +:+ arg +:+ dq)
         /\ (~ In " "%char (list_ascii_of_string arg) -> quote_arg arg = arg)).
Proof.
  intros Hall.
  split.
  { unfold process_media_files. rewrite (process_loop_fst languages media_files Hall).
    unfold script_text. by rewrite !string_app_assoc. }
  split; [by eexists|].
  intros arg. unfold quote_arg.
  destruct (PyStr.contains_char " " arg) eqn:Hc.
  - split; [done|]. intros Hn. by apply contains_char_In in Hc.
  - split; [|done]. intros Hin. apply contains_char_In in Hin. congruence.
Qed.

Lemma script_text_shape_witness :
  let mf := movie_mkv "aac" "ac3" "subrip" [] in
  Forall (streams_are_records ["jpn"]) [mf]
  /\ fst (process_media_files [mf] ["jpn"] empty_state)
     = Ok (script_text quote_arg ["jpn"] [mf]).
Proof.
  intros mf.
  assert (Forall (streams_are_records ["jpn"]) [mf]) as Hall.
  { constructor; [|constructor].
    split; simpl;
      repeat (apply Forall_cons_2; [intros _; split; by eexists|]);
      apply Forall_nil_2. }
  split; [exact Hall|].
  exact (proj1 (script_text_shape ["jpn"] [mf] empty_state Hall)).
Defined.

(** C9: the script does not depend on anything but the inventory and the
    allow-list: started in any two states (any log so far, any snapshot on
    disk), [process_media_files] ends with the same outcome, hence with the
    same script text. *)
Theorem process_media_files_deterministic (media_files : list MediaFile)
    (languages : list string) (st1 st2 : State) :
  fst (process_media_files media_files languages st1)
  = fst (process_media_files media_files languages st2).
Proof.
  apply oblivious_fst. unfold process_media_files. apply process_loop_oblivious.
Qed.

(** * Further properties *)

(** ** Stream selection: log lines and missing keys *)

Lemma runs_bind_ret {A B} (a : A) (k : A -> M B) r evs :
  runs (k a) r evs -> runs (bind (ret a) k) r evs.
Proof. intros Hk. apply (runs_bind _ _ a r [] evs); [apply runs_ret|exact Hk]. Qed.

Lemma runs_bind_emit {B} ev (k : unit -> M B) r evs :
  runs (k tt) r evs -> runs (bind (emit ev) k) r (ev :: evs).
Proof. intros Hk. apply (runs_bind _ _ tt r [ev] evs); [apply runs_emit|exact Hk]. Qed.

Lemma _map_streams_loop_cons p kind languages s l acc :
  _map_streams_loop p kind languages (s :: l) acc
  = if drop_test languages (stream_language s) then
      bind (getitem_index s) (fun i =>
      bind (getitem_codec_name s) (fun c =>
      bind (logging_info (delete_line p kind i c (stream_language s))) (fun _ =>
      bind (getitem_index s) (fun i' =>
        _map_streams_loop p kind languages l (acc ++ [i'])))))
    else _map_streams_loop p kind languages l acc.
Proof. reflexivity. Qed.

Lemma drop_logs_cons_marked p kind languages s l :
  marked_for_drop languages s ->
  drop_logs p kind languages (s :: l) = drop_log p kind s ++ drop_logs p kind languages l.
Proof. intros Hm. unfold drop_logs. by rewrite filter_cons_True. Qed.

Lemma drop_logs_cons_kept p kind languages s l :
  ~ marked_for_drop languages s ->
  drop_logs p kind languages (s :: l) = drop_logs p kind languages l.
Proof. intros Hm. unfold drop_logs. by rewrite filter_cons_False. Qed.

Lemma stream_ids_cons_marked languages s l i :
  marked_for_drop languages s -> index s = Some i ->
  stream_ids languages (s :: l) = i :: stream_ids languages l.
Proof.
  intros Hm Hi. unfold stream_ids. rewrite filter_cons_True by done.
  simpl. by rewrite Hi.
Qed.

Lemma stream_ids_cons_kept languages s l :
  ~ marked_for_drop languages s ->
  stream_ids languages (s :: l) = stream_ids languages l.
Proof. intros Hm. unfold stream_ids. by rewrite filter_cons_False. Qed.

Lemma drop_test_not_marked languages s :
  drop_test languages (stream_language s) = false <-> ~ marked_for_drop languages s.
Proof. rewrite <- drop_test_marked. by destruct (drop_test _ _). Qed.

Lemma _map_streams_loop_events p kind languages l acc :
  Forall (fun s => marked_for_drop languages s -> has_record_fields s) l ->
  runs (_map_streams_loop p kind languages l acc)
    (Ok (acc ++ stream_ids languages l)) (drop_logs p kind languages l).
Proof.
  intros Hl. revert acc. induction Hl as [|s l Hs Hl IH]; intros acc.
  - change (stream_ids languages []) with (@nil Z). rewrite app_nil_r.
    apply runs_ret.
  - rewrite _map_streams_loop_cons.
    destruct (drop_test languages (stream_language s)) eqn:Ht.
    + apply drop_test_marked in Ht.
      destruct (Hs Ht) as [[i Hi] [c Hc]].
      rewrite (stream_ids_cons_marked _ _ _ i Ht Hi), (drop_logs_cons_marked _ _ _ _ _ Ht).
      unfold drop_log, getitem_index, getitem_codec_name. rewrite Hi, Hc.
      apply runs_bind_ret, runs_bind_ret. unfold logging_info.
      apply runs_bind_emit, runs_bind_ret.
      assert (acc ++ i :: stream_ids languages l
              = (acc ++ [i]) ++ stream_ids languages l) as ->
        by (by rewrite <- app_assoc).
      apply IH.
    + apply drop_test_not_marked in Ht.
      rewrite (stream_ids_cons_kept _ _ _ Ht), (drop_logs_cons_kept _ _ _ _ _ Ht).
      apply IH.
Qed.

Lemma _map_streams_loop_key_error p kind languages l1 s l2 acc key :
  Forall (fun s => marked_for_drop languages s -> has_record_fields s) l1 ->
  marked_for_drop languages s ->
  missing_key s = Some key ->
  runs (_map_streams_loop p kind languages (l1 ++ s :: l2) acc)
    (Raise (KeyError key)) (drop_logs p kind languages l1).
Proof.
  intros Hl Hm Hkey. revert acc. induction Hl as [|s' l1 Hs Hl IH]; intros acc.
  - rewrite app_nil_l, _map_streams_loop_cons.
    apply drop_test_marked in Hm. rewrite Hm.
    unfold missing_key in Hkey. unfold getitem_index, getitem_codec_name.
    destruct (index s) as [i|].
    + destruct (codec_name s) as [c|]; [done|]. injection Hkey as <-.
      apply runs_bind_ret, runs_bind_raise, runs_raise.
    + injection Hkey as <-. apply runs_bind_raise, runs_raise.
  - rewrite <- app_comm_cons, _map_streams_loop_cons.
    destruct (drop_test languages (stream_language s')) eqn:Ht.
    + apply drop_test_marked in Ht.
      destruct (Hs Ht) as [[i Hi] [c Hc]].
      rewrite (drop_logs_cons_marked _ _ _ _ _ Ht).
      unfold drop_log, getitem_index, getitem_codec_name. rewrite Hi, Hc.
      apply runs_bind_ret, runs_bind_ret. unfold logging_info.
      apply runs_bind_emit, runs_bind_ret.
      apply IH.
    + apply drop_test_not_marked in Ht.
      rewrite (drop_logs_cons_kept _ _ _ _ _ Ht). apply IH.
Qed.

Lemma _map_streams_events languages media_file kind :
  Forall (fun s => marked_for_drop languages s -> has_record_fields s)
    (selected_streams media_file kind) ->
  runs (_map_streams languages media_file kind)
    (Ok (stream_ids languages (selected_streams media_file kind)))
    (drop_logs (path media_file) kind languages (selected_streams media_file kind)).
Proof.
  intros Hl. unfold _map_streams.
  apply (_map_streams_loop_events (path media_file) kind languages _ [] Hl).
Qed.

Lemma missing_key_cases s key :
  missing_key s = Some key -> key = "index" \/ key = "codec_name".
Proof.
  unfold missing_key.
  destruct (index s); [destruct (codec_name s)|]; intros; simplify_eq; auto.
Qed.

(** X1: when a stream to be dropped lacks [index] or [codec_name],
    [_map_streams] raises [KeyError] for the first key that is missing
    ([index] before [codec_name]); the streams before it have been logged,
    and no list of indices is returned. *)
Theorem map_streams_key_error (languages : list string) (media_file : MediaFile)
    (kind : string) (l1 l2 : list Stream) (s : Stream) (key : string) :
  selected_streams media_file kind = l1 ++ s :: l2 ->
  Forall (fun s => marked_for_drop languages s -> has_record_fields s) l1 ->
  marked_for_drop languages s ->
  missing_key s = Some key ->
  runs (_map_streams languages media_file kind) (Raise (KeyError key))
    (drop_logs (path media_file) kind languages l1)
  /\ (key = "index" \/ key = "codec_name").
Proof.
  intros Hsel Hl Hm Hkey. split.
  - unfold _map_streams. rewrite Hsel. by apply _map_streams_loop_key_error.
  - by apply (missing_key_cases s).
Qed.

Lemma map_streams_key_error_witness :
  selected_streams nameless_file "audio"
  = [tagged_stream 1 "aac" "ger"] ++ nameless_stream :: []
  /\ marked_for_drop ["eng"] nameless_stream
  /\ missing_key nameless_stream = Some "codec_name"
  /\ runs (_map_streams ["eng"] nameless_file "audio")
       (Raise (KeyError "codec_name"))
       [LogInfo "b.mkv - delete audio stream: 1:aac:ger"].
Proof.
  assert (marked_for_drop ["eng"] nameless_stream) as Hm.
  { apply (bool_decide_unpack _). vm_compute. exact I. }
  split; [reflexivity|]. split; [exact Hm|]. split; [reflexivity|].
  refine (proj1 (map_streams_key_error ["eng"] nameless_file "audio"
                   [tagged_stream 1 "aac" "ger"] [] nameless_stream "codec_name"
                   eq_refl _ Hm eq_refl)).
  apply Forall_cons_2; [|apply Forall_nil_2].
  intros _. split; by eexists.
Defined.

(** X2: on stream records, [_map_streams] returns the indices of the marked
    streams and writes exactly one info line per dropped stream, in stream
    order, naming the file, the kind, the index, the codec and the language;
    it does nothing else to the world. *)
Theorem map_streams_log_lines (languages : list string) (media_file : MediaFile)
    (kind : string) :
  Forall (fun s => marked_for_drop languages s -> has_record_fields s)
    (selected_streams media_file kind) ->
  runs (_map_streams languages media_file kind)
    (Ok (stream_ids languages (selected_streams media_file kind)))
    (drop_logs (path media_file) kind languages (selected_streams media_file kind))
  /\ Forall2 (fun s ev =>
                exists i c, index s = Some i /\ codec_name s = Some c
                  /\ ev = LogInfo (delete_line (path media_file) kind i c
                                     (stream_language s)))
       (filter (marked_for_drop languages) (selected_streams media_file kind))
       (drop_logs (path media_file) kind languages (selected_streams media_file kind)).
Proof.
  intros Hl. split.
  - by apply _map_streams_events.
  - unfold drop_logs.
    induction Hl as [|s l Hs Hl IH]; [constructor|].
    destruct (decide (marked_for_drop languages s)) as [Hm|Hm].
    + rewrite filter_cons_True by done.
      destruct (Hs Hm) as [[i Hi] [c Hc]].
      cbn [flat_map]. unfold drop_log at 1. rewrite Hi, Hc.
      constructor; [by exists i, c|exact IH].
    + by rewrite filter_cons_False.
Qed.

Lemma map_streams_log_lines_witness :
  let mf := movie_mkv "aac" "ac3" "subrip" [] in
  Forall (fun s => marked_for_drop ["jpn"] s -> has_record_fields s)
    (selected_streams mf "audio")
  /\ runs (_map_streams ["jpn"] mf "audio") (Ok [1%Z])
       [LogInfo "movie.mkv - delete audio stream: 1:ac3:eng"].
Proof.
  intros mf.
  assert (Forall (fun s => marked_for_drop ["jpn"] s -> has_record_fields s)
            (selected_streams mf "audio")) as Hl.
  { repeat (apply Forall_cons_2; [intros _; split; by eexists|]).
    apply Forall_nil_2. }
  split; [exact Hl|].
  exact (proj1 (map_streams_log_lines ["jpn"] mf "audio" Hl)).
Defined.

(** ** The allow-list *)

Lemma _map_streams_loop_ext p kind languages languages' :
  (forall x, drop_test languages x = drop_test languages' x) ->
  forall streams acc st,
    _map_streams_loop p kind languages streams acc st
    = _map_streams_loop p kind languages' streams acc st.
Proof.
  intros Hsame streams. induction streams as [|s streams IH]; intros acc st.
  - reflexivity.
  - rewrite !_map_streams_loop_cons, Hsame.
    destruct (drop_test languages' (stream_language s)); [|apply IH].
    unfold bind.
    destruct (getitem_index s st) as [[i|e] st1]; [|reflexivity].
    destruct (getitem_codec_name s st1) as [[c|e] st2]; [|reflexivity].
    destruct (logging_info _ st2) as [[u|e] st3]; [|reflexivity].
    destruct (getitem_index s st3) as [[i'|e] st4]; [|reflexivity].
    apply IH.
Qed.

Lemma process_loop_ext languages languages' :
  (forall x, drop_test languages x = drop_test languages' x) ->
  forall media_files script st,
    process_loop languages media_files script st
    = process_loop languages' media_files script st.
Proof.
  intros Hsame media_files.
  induction media_files as [|mf rest IH]; intros script st.
  - reflexivity.
  - rewrite !process_loop_unfold. unfold bind, _map_streams.
    rewrite (_map_streams_loop_ext _ _ _ _ Hsame).
    destruct (_map_streams_loop _ _ languages' _ _ st) as [[a|e] st1]; [|reflexivity].
    rewrite (_map_streams_loop_ext _ _ _ _ Hsame).
    destruct (_map_streams_loop _ _ languages' _ _ st1) as [[b|e] st2]; [|reflexivity].
    apply IH.
Qed.

Lemma drop_test_same_languages languages languages' :
  (forall x, x <> "und" -> (x ∈ languages <-> x ∈ languages')) ->
  forall x, drop_test languages x = drop_test languages' x.
Proof.
  intros Hsame x. unfold drop_test.
  destruct (String.eqb_spec x "und") as [->|Hne]; [reflexivity|].
  simpl. f_equal. apply bool_decide_ext. by apply Hsame.
Qed.

(** X3: the script and the log depend on the allow-list only through the
    set of languages other than "und" that it holds: the order of the
    allow-list, repeated entries and an entry "und" change nothing. *)
Theorem allow_list_is_a_set (media_files : list MediaFile)
    (languages languages' : list string) (st : State) :
  (forall x, x <> "und" -> (x ∈ languages <-> x ∈ languages')) ->
  process_media_files media_files languages st
  = process_media_files media_files languages' st.
Proof.
  intros Hsame. unfold process_media_files.
  apply process_loop_ext. by apply drop_test_same_languages.
Qed.

Lemma allow_list_is_a_set_witness :
  (forall x, x <> "und" -> (x ∈ ["jpn"; "und"; "eng"] <-> x ∈ ["eng"; "jpn"; "eng"]))
  /\ process_media_files [movie_mkv "aac" "ac3" "subrip" []] ["jpn"; "und"; "eng"]
       empty_state
     = process_media_files [movie_mkv "aac" "ac3" "subrip" []] ["eng"; "jpn"; "eng"]
         empty_state.
Proof.
  assert (forall x, x <> "und" ->
            (x ∈ ["jpn"; "und"; "eng"] <-> x ∈ ["eng"; "jpn"; "eng"])) as Hsame.
  { intros x Hne. rewrite !elem_of_cons, !elem_of_nil. tauto. }
  split; [exact Hsame|].
  exact (allow_list_is_a_set [movie_mkv "aac" "ac3" "subrip" []]
           ["jpn"; "und"; "eng"] ["eng"; "jpn"; "eng"] empty_state Hsame).
Defined.

Lemma stream_ids_sublist languages languages' streams :
  (forall x, x ∈ languages -> x ∈ languages') ->
  stream_ids languages' streams `sublist_of` stream_ids languages streams.
Proof.
  intros Hsub. induction streams as [|s streams IH]; [constructor|].
  assert (marked_for_drop languages' s -> marked_for_drop languages s) as Himp.
  { intros [H1 H2]. split; [done|]. intros Hin. by apply H2, Hsub. }
  destruct (decide (marked_for_drop languages' s)) as [Hm'|Hm'].
  - pose proof (Himp Hm') as Hm. unfold stream_ids.
    rewrite !filter_cons_True by done. simpl.
    destruct (index s); [by apply sublist_skip|exact IH].
  - rewrite (stream_ids_cons_kept _ _ _ Hm').
    destruct (decide (marked_for_drop languages s)) as [Hm|Hm].
    + unfold stream_ids at 2. rewrite filter_cons_True by done. simpl.
      destruct (index s); [by apply sublist_cons|exact IH].
    + by rewrite (stream_ids_cons_kept _ _ _ Hm).
Qed.

(** X4: allowing more languages never drops more: when every language of
    one allow-list is in a second one, the indices dropped under the second
    are a sublist of those dropped under the first. *)
Theorem allow_more_drop_less (languages languages' : list string)
    (media_file : MediaFile) (kind : string) (st st' : State) :
  (forall x, x ∈ languages -> x ∈ languages') ->
  Forall (fun s => marked_for_drop languages s -> has_record_fields s)
    (selected_streams media_file kind) ->
  exists ids ids',
    fst (_map_streams languages media_file kind st) = Ok ids
    /\ fst (_map_streams languages' media_file kind st') = Ok ids'
    /\ ids' `sublist_of` ids
    /\ length ids' <= length ids.
Proof.
  intros Hsub Hl.
  assert (Forall (fun s => marked_for_drop languages' s -> has_record_fields s)
            (selected_streams media_file kind)) as Hl'.
  { eapply Forall_impl; [exact Hl|]. intros s Hs [H1 H2]. apply Hs.
    split; [done|]. intros Hin. by apply H2, Hsub. }
  pose proof (_map_streams_events languages media_file kind Hl) as H1.
  pose proof (_map_streams_events languages' media_file kind Hl') as H2.
  do 2 eexists. rewrite (H1 st), (H2 st'). cbn [fst].
  split; [reflexivity|]. split; [reflexivity|].
  pose proof (stream_ids_sublist languages languages'
                (selected_streams media_file kind) Hsub) as Hs.
  split; [exact Hs|]. by apply sublist_length.
Qed.

Lemma allow_more_drop_less_witness :
  let mf := movie_mkv "aac" "ac3" "subrip" [] in
  (forall x, x ∈ @nil string -> x ∈ ["jpn"])
  /\ Forall (fun s => marked_for_drop [] s -> has_record_fields s)
       (selected_streams mf "audio")
  /\ exists ids ids',
       fst (_map_streams [] mf "audio" empty_state) = Ok ids
       /\ fst (_map_streams ["jpn"] mf "audio" empty_state) = Ok ids'
       /\ ids' `sublist_of` ids.
Proof.
  intros mf.
  assert (forall x : string, x ∈ @nil string -> x ∈ ["jpn"]) as Hsub.
  { intros x Hx. by apply elem_of_nil in Hx. }
  assert (Forall (fun s => marked_for_drop [] s -> has_record_fields s)
            (selected_streams mf "audio")) as Hl.
  { repeat (apply Forall_cons_2; [intros _; split; by eexists|]).
    apply Forall_nil_2. }
  split; [exact Hsub|]. split; [exact Hl|].
  destruct (allow_more_drop_less [] ["jpn"] mf "audio" empty_state empty_state
              Hsub Hl) as (ids & ids' & H1 & H2 & H3 & _).
  exists ids, ids'. auto.
Defined.

(** ** Files of which nothing is dropped *)

Lemma kept_not_marked languages s :
  kept languages s <-> ~ marked_for_drop languages s.
Proof.
  unfold kept, marked_for_drop. split.
  - intros [Hu|Hin] [H1 H2]; auto.
  - intros Hn. destruct (decide (stream_language s = "und")) as [Hu|Hu]; [by left|].
    destruct (decide (stream_language s ∈ languages)) as [Hin|Hin]; [by right|].
    by destruct Hn.
Qed.

Lemma filter_marked_kept languages streams :
  Forall (kept languages) streams ->
  filter (marked_for_drop languages) streams = [].
Proof.
  induction 1 as [|s streams Hs Hl IH]; [reflexivity|].
  apply kept_not_marked in Hs. by rewrite filter_cons_False.
Qed.

Lemma _map_streams_kept languages media_file kind :
  Forall (kept languages) (selected_streams media_file kind) ->
  runs (_map_streams languages media_file kind) (Ok []) [].
Proof.
  intros Hk.
  assert (Forall (fun s => marked_for_drop languages s -> has_record_fields s)
            (selected_streams media_file kind)) as Hl.
  { eapply Forall_impl; [exact Hk|]. intros s Hs Hm.
    by apply kept_not_marked in Hs. }
  pose proof (_map_streams_events languages media_file kind Hl) as Hrun.
  unfold stream_ids, drop_logs in Hrun.
  by rewrite (filter_marked_kept _ _ Hk) in Hrun.
Qed.

Lemma process_loop_nothing_to_drop languages media_files script :
  Forall (nothing_to_drop languages) media_files ->
  runs (process_loop languages media_files script)
    (Ok (script +:+ concat_strings (map plain_entry media_files))) [].
Proof.
  intros Hall. revert script.
  induction Hall as [|mf rest [Ha Hs] Hrest IH]; intros script.
  - cbn [map concat_strings fold_right]. rewrite string_app_nil_r. apply runs_ret.
  - rewrite process_loop_unfold.
    apply (runs_bind _ _ [] _ [] []); [by apply _map_streams_kept|].
    apply (runs_bind _ _ [] _ [] []); [by apply _map_streams_kept|].
    cbn [map concat_strings fold_right].
    fold (concat_strings (map plain_entry rest)).
    assert (script +:+ plain_entry mf +:+ concat_strings (map plain_entry rest)
            = (((script +:+ ("echo " +:+ dq +:+ "Processing " +:+ path mf
                             +:+ "..." +:+ dq +:+ nl))
                +:+ PyStr.join " " (map quote_arg (_gen_cmdline mf [] [])))
               +:+ (nl +:+ nl))
              +:+ concat_strings (map plain_entry rest)) as ->.
    { unfold plain_entry. by rewrite !string_app_assoc. }
    apply IH.
Qed.

(** X5: when every audio and subtitle stream of every file has no language
    or an allowed one, nothing is logged, and the script still has an entry
    for each file: its command line is ffmpeg -i <input> -map 0 -map -c copy
    <output>, with no exclusion token between the second -map and -c. *)
Theorem nothing_to_drop_script (media_files : list MediaFile)
    (languages : list string) :
  Forall (nothing_to_drop languages) media_files ->
  runs (process_media_files media_files languages)
    (Ok ("#!/bin/bash" +:+ nl +:+ nl
         +:+ concat_strings (map plain_entry media_files))) [].
Proof.
  intros Hall. unfold process_media_files.
  pose proof (process_loop_nothing_to_drop languages media_files
                ("#!/bin/bash" +:+ nl +:+ nl) Hall) as Hrun.
  by rewrite !string_app_assoc in Hrun.
Qed.

Lemma nothing_to_drop_script_witness :
  let mf := movie_mkv "aac" "ac3" "subrip" [] in
  Forall (nothing_to_drop ["eng"; "jpn"]) [mf]
  /\ fst (process_media_files [mf] ["eng"; "jpn"] empty_state)
     = Ok ("#!/bin/bash" +:+ nl +:+ nl
           +:+ "echo " +:+ dq +:+ "Processing movie.mkv..." +:+ dq +:+ nl
           +:+ "ffmpeg -i movie.mkv -map 0 -map -c copy movie.cleaned.mkv"
           +:+ nl +:+ nl).
Proof.
  intros mf.
  assert (Forall (nothing_to_drop ["eng"; "jpn"]) [mf]) as Hall.
  { apply Forall_cons_2; [|apply Forall_nil_2].
    split; repeat (apply Forall_cons_2;
                   [right; apply (bool_decide_unpack _); vm_compute; exact I|]);
      apply Forall_nil_2. }
  split; [exact Hall|].
  exact (f_equal fst (nothing_to_drop_script [mf] ["eng"; "jpn"] Hall empty_state)).
Defined.

(** ** What script generation does to the world *)

Lemma logs_only_ret {A} (a : A) : logs_only (ret a).
Proof. exists (Ok a), []. split; [apply runs_ret|constructor]. Qed.

Lemma logs_only_raise {A} (e : exn) : logs_only (@raise A e).
Proof. exists (Raise e), []. split; [apply runs_raise|constructor]. Qed.

Lemma logs_only_info msg : logs_only (logging_info msg).
Proof.
  exists (Ok tt), [LogInfo msg]. split; [apply runs_emit|].
  by repeat constructor.
Qed.

Lemma logs_only_bind {A B} (c : M A) (k : A -> M B) :
  logs_only c -> (forall a, logs_only (k a)) -> logs_only (bind c k).
Proof.
  intros (r & evs & Hc & Hevs) Hk. destruct r as [a|e].
  - destruct (Hk a) as (r' & evs' & Hk' & Hevs').
    exists r', (evs ++ evs'). split; [by eapply runs_bind|].
    by apply Forall_app.
  - exists (Raise e), evs. split; [by apply runs_bind_raise|done].
Qed.

Lemma _map_streams_loop_logs_only p kind languages l acc :
  logs_only (_map_streams_loop p kind languages l acc).
Proof.
  revert acc. induction l as [|s l IH]; intros acc.
  - apply logs_only_ret.
  - rewrite _map_streams_loop_cons.
    destruct (drop_test languages (stream_language s)); [|apply IH].
    assert (logs_only (getitem_index s)) as Hidx.
    { unfold getitem_index. destruct (index s);
        [apply logs_only_ret|apply logs_only_raise]. }
    apply logs_only_bind; [exact Hidx|intros i].
    apply logs_only_bind; [|intros c].
    { unfold getitem_codec_name. destruct (codec_name s);
        [apply logs_only_ret|apply logs_only_raise]. }
    apply logs_only_bind; [apply logs_only_info|intros _].
    apply logs_only_bind; [exact Hidx|intros i'].
    apply IH.
Qed.

Lemma process_loop_logs_only languages media_files script :
  logs_only (process_loop languages media_files script).
Proof.
  revert script. induction media_files as [|mf rest IH]; intros script.
  - apply logs_only_ret.
  - rewrite process_loop_unfold.
    apply logs_only_bind; [apply _map_streams_loop_logs_only|intros a].
    apply logs_only_bind; [apply _map_streams_loop_logs_only|intros s].
    apply IH.
Qed.

(** X6: whatever the inventory and the allow-list, and whether it returns
    or raises, [process_media_files] leaves [media.pickle] as it is and adds
    nothing to the trace but info log lines: it runs no walk, no probe, no
    load and no dump, and logs no error. *)
Theorem process_media_files_only_logs (media_files : list MediaFile)
    (languages : list string) (st : State) :
  pickle_file (snd (process_media_files media_files languages st)) = pickle_file st
  /\ exists evs,
       trace (snd (process_media_files media_files languages st)) = trace st ++ evs
       /\ Forall is_log_info evs.
Proof.
  destruct (process_loop_logs_only languages media_files ("#!/bin/bash" +:+ nl +:+ nl))
    as (r & evs & Hrun & Hevs).
  unfold process_media_files. rewrite (Hrun st). cbn [snd pickle_file trace].
  split; [reflexivity|]. by exists evs.
Qed.

(** ** A file with a malformed stream stops the script *)

Lemma missing_key_None s : missing_key s = None -> has_record_fields s.
Proof.
  unfold missing_key, has_record_fields.
  destruct (index s); [|done]. destruct (codec_name s); [|done].
  intros _. split; by eexists.
Qed.

Lemma missing_key_Some s key : missing_key s = Some key -> ~ has_record_fields s.
Proof.
  unfold missing_key, has_record_fields.
  destruct (index s); [destruct (codec_name s); [done|]|].
  - intros _ [_ [c Hc]]. discriminate.
  - intros _ [[i Hi] _]. discriminate.
Qed.

(** Either all marked streams are records, or there is a first one that is
    not. *)
Lemma first_malformed_stream languages l :
  Forall (fun s => marked_for_drop languages s -> has_record_fields s) l
  \/ exists l1 s l2 key,
       l = l1 ++ s :: l2
       /\ Forall (fun s => marked_for_drop languages s -> has_record_fields s) l1
       /\ marked_for_drop languages s
       /\ missing_key s = Some key.
Proof.
  induction l as [|a l IH]; [left; constructor|].
  destruct (decide (marked_for_drop languages a)) as [Hm|Hm].
  - destruct (missing_key a) as [key|] eqn:Hkey.
    + right. exists [], a, l, key.
      split; [reflexivity|]. split; [constructor|]. by split.
    + apply missing_key_None in Hkey.
      destruct IH as [IH|(l1 & s & l2 & key & -> & Hl1 & Hs & Hk)].
      * left. by constructor.
      * right. exists (a :: l1), s, l2, key.
        split; [reflexivity|]. split; [by constructor|]. by split.
  - destruct IH as [IH|(l1 & s & l2 & key & -> & Hl1 & Hs & Hk)].
    + left. by constructor.
    + right. exists (a :: l1), s, l2, key.
      split; [reflexivity|]. split; [|by split].
      constructor; [by intros ?|exact Hl1].
Qed.

Lemma _map_streams_cases languages media_file kind :
  (Forall (fun s => marked_for_drop languages s -> has_record_fields s)
     (selected_streams media_file kind)
   /\ exists ids evs, runs (_map_streams languages media_file kind) (Ok ids) evs)
  \/ (~ Forall (fun s => marked_for_drop languages s -> has_record_fields s)
        (selected_streams media_file kind)
      /\ exists key evs,
           runs (_map_streams languages media_file kind) (Raise (KeyError key)) evs
           /\ (key = "index" \/ key = "codec_name")).
Proof.
  destruct (first_malformed_stream languages (selected_streams media_file kind))
    as [Hl|(l1 & s & l2 & key & Hsel & Hl1 & Hs & Hk)].
  - left. split; [exact Hl|].
    do 2 eexists. exact (_map_streams_events languages media_file kind Hl).
  - right. split.
    + rewrite Hsel. intros Hall. apply Forall_app in Hall as [_ Hall].
      apply Forall_cons in Hall as [Hbad _].
      by apply (missing_key_Some s key Hk), Hbad.
    + exists key, (drop_logs (path media_file) kind languages l1). split.
      * unfold _map_streams. rewrite Hsel. by apply _map_streams_loop_key_error.
      * by apply (missing_key_cases s).
Qed.

Lemma process_loop_key_error languages media_files :
  Exists (fun mf => ~ streams_are_records languages mf) media_files ->
  forall script,
    exists key evs,
      runs (process_loop languages media_files script) (Raise (KeyError key)) evs
      /\ (key = "index" \/ key = "codec_name").
Proof.
  induction media_files as [|mf rest IH]; intros Hex script.
  { by apply Exists_nil in Hex. }
  rewrite process_loop_unfold.
  destruct (_map_streams_cases languages mf "audio")
    as [[Ha (a & evs1 & H1)]|[Ha (key & evs1 & H1 & Hkey)]].
  2:{ exists key, evs1. split; [by apply runs_bind_raise|exact Hkey]. }
  destruct (_map_streams_cases languages mf "subtitle")
    as [[Hs (b & evs2 & H2)]|[Hs (key & evs2 & H2 & Hkey)]].
  2:{ exists key, (evs1 ++ evs2). split; [|exact Hkey].
      eapply runs_bind; [exact H1|]. by apply runs_bind_raise. }
  apply Exists_cons in Hex as [Hbad|Hex].
  { destruct Hbad. by split. }
  destruct (IH Hex
              (((script +:+ ("echo " +:+ dq +:+ "Processing " +:+ path mf
                             +:+ "..." +:+ dq +:+ nl))
                +:+ PyStr.join " " (map quote_arg (_gen_cmdline mf a b)))
               +:+ (nl +:+ nl)))
    as (key & evs3 & H3 & Hkey).
  exists key, (evs1 ++ evs2 ++ evs3). split; [|exact Hkey].
  eapply runs_bind; [exact H1|]. eapply runs_bind; [exact H2|]. exact H3.
Qed.

(** X7: when some file of the inventory has a stream to be dropped that
    lacks [index] or [codec_name], [process_media_files] raises [KeyError]
    for that key and returns no script at all, also when the files before it
    were in order. *)
Theorem process_media_files_key_error (media_files : list MediaFile)
    (languages : list string) (st : State) :
  Exists (fun mf => ~ streams_are_records languages mf) media_files ->
  exists key,
    fst (process_media_files media_files languages st) = Raise (KeyError key)
    /\ (key = "index" \/ key = "codec_name").
Proof.
  intros Hex.
  destruct (process_loop_key_error languages media_files Hex
              ("#!/bin/bash" +:+ nl +:+ nl)) as (key & evs & Hrun & Hkey).
  exists key. split; [|exact Hkey].
  unfold process_media_files. by rewrite (Hrun st).
Qed.

Lemma process_media_files_key_error_witness :
  let good := movie_mkv "aac" "ac3" "subrip" [] in
  Exists (fun mf => ~ streams_are_records ["eng"] mf) [good; nameless_file]
  /\ exists key,
       fst (process_media_files [good; nameless_file] ["eng"] empty_state)
       = Raise (KeyError key).
Proof.
  intros good.
  assert (Exists (fun mf => ~ streams_are_records ["eng"] mf) [good; nameless_file])
    as Hex.
  { apply Exists_cons_tl, Exists_cons_hd. intros [Ha _].
    apply Forall_cons in Ha as [_ Ha]. apply Forall_cons in Ha as [Hbad _].
    assert (marked_for_drop ["eng"] nameless_stream) as Hm.
    { apply (bool_decide_unpack _). vm_compute. exact I. }
    destruct (Hbad Hm) as [_ [c Hc]]. discriminate. }
  split; [exact Hex|].
  destruct (process_media_files_key_error [good; nameless_file] ["eng"] empty_state Hex)
    as (key & Hkey & _).
  by exists key.
Defined.

(** ** Video streams *)

Lemma process_loop_set_video video languages media_files script st :
  process_loop languages (map (set_video video) media_files) script st
  = process_loop languages media_files script st.
Proof.
  revert script st. induction media_files as [|mf rest IH]; intros script st.
  - reflexivity.
  - cbn [map]. rewrite !process_loop_unfold. unfold bind.
    change (_map_streams languages (set_video video mf))
      with (_map_streams languages mf).
    destruct (_map_streams languages mf "audio" st) as [[a|e] st1]; [|reflexivity].
    destruct (_map_streams languages mf "subtitle" st1) as [[b|e] st2]; [|reflexivity].
    apply IH.
Qed.

(** X8: video streams are never looked at: replacing the video streams of
    the files of the inventory by any others gives the same script, the same
    log lines and the same exceptions. *)
Theorem video_streams_never_read (video : MediaFile -> list Stream)
    (media_files : list MediaFile) (languages : list string) (st : State) :
  process_media_files (map (set_video video) media_files) languages st
  = process_media_files media_files languages st.
Proof. unfold process_media_files. apply process_loop_set_video. Qed.

(** ** The output path, continued *)

Lemma occurs_in_spec old s :
  occurs_in old s = true <-> exists pre, occurs_after old s pre.
Proof.
  induction s as [|c s IH].
  - cbn [occurs_in]. rewrite orb_false_r, startswith_app. split.
    + intros [post Hpost]. exists "", post. by rewrite string_app_nil_l.
    + intros [pre [post Hpost]]. destruct pre; [|discriminate].
      rewrite string_app_nil_l in Hpost. by exists post.
  - cbn [occurs_in]. rewrite orb_true_iff, IH, startswith_app. split.
    + intros [[post Hpost]|[pre [post Hpost]]].
      * exists "", post. by rewrite string_app_nil_l.
      * exists (String c pre), post. rewrite string_app_cons. by rewrite Hpost.
    + intros [[|a pre] [post Hpost]].
      * left. exists post. by rewrite string_app_nil_l in Hpost.
      * right. rewrite string_app_cons in Hpost. injection Hpost as -> Hs.
        by exists pre, post.
Qed.

Lemma occurs_in_false old s :
  occurs_in old s = false <-> forall pre, ~ occurs_after old s pre.
Proof.
  rewrite <- not_true_iff_false, occurs_in_spec. split.
  - intros Hn pre Hocc. apply Hn. by exists pre.
  - intros Hn [pre Hocc]. by apply (Hn pre).
Qed.

Lemma replace_go_none old new s :
  old <> "" -> occurs_in old s = false -> PyStr.replace_go old new 0 s = s.
Proof.
  intros Hold. induction s as [|c s IH]; intros Hocc.
  - by destruct old.
  - cbn [occurs_in] in Hocc. apply orb_false_iff in Hocc as [Hstart Hrest].
    rewrite replace_go_no_match by done. by rewrite IH.
Qed.

Lemma replaced_all_longer old new s t :
  String.length old < String.length new ->
  replaced_all old new s t ->
  String.length s <= String.length t
  /\ (String.length s = String.length t -> forall pre, ~ occurs_after old s pre).
Proof.
  intros Hlen. induction 1 as [s Hnone|pre post t Hfirst Hrest [IH1 IH2]].
  - split; [lia|]. by intros _.
  - rewrite !string_length_app. split; [lia|]. intros Heq. lia.
Qed.

(** X9: the output path is the input path exactly when the container string
    does not occur in the path (as for an extension written in capitals,
    since the container is lower-cased): the generated command then names
    the input file as its own output. *)
Theorem output_path_unchanged_iff (media_file : MediaFile) :
  container (info media_file) <> "" ->
  output_path media_file = path media_file
  <-> occurs_in (container (info media_file)) (path media_file) = false.
Proof.
  intros Hne. unfold output_path, PyStr.replace. split.
  - intros Heq. apply occurs_in_false.
    pose proof (replace_go_replaced_all _ ("cleaned." +:+ container (info media_file))
                  Hne _ (path media_file) (le_n _)) as Hrep.
    apply (replaced_all_longer _ _ _ _) in Hrep as [_ Hrep].
    + apply Hrep. by rewrite Heq.
    + rewrite string_length_app. simpl. lia.
  - by apply replace_go_none.
Qed.

Lemma output_path_unchanged_iff_witness :
  container (info capitals_file) <> ""
  /\ occurs_in (container (info capitals_file)) (path capitals_file) = false
  /\ output_path capitals_file = "Movie.MKV".
Proof.
  assert (container (info capitals_file) <> "") as Hne by discriminate.
  split; [exact Hne|]. split; [reflexivity|].
  exact (proj2 (output_path_unchanged_iff capitals_file Hne) eq_refl).
Defined.

Lemma prefix_without_char d c post stem rest :
  PyStr.contains_char d c = false ->
  c +:+ post = stem +:+ String d rest ->
  exists post', stem = c +:+ post'.
Proof.
  revert stem. induction c as [|x c IH]; intros stem Hno Heq.
  - by exists stem.
  - cbn [PyStr.contains_char] in Hno.
    destruct (Ascii.eqb_spec x d) as [->|Hne]; [discriminate|].
    destruct stem as [|y stem].
    + rewrite string_app_nil_l, string_app_cons in Heq. congruence.
    + rewrite !string_app_cons in Heq. injection Heq as -> Heq.
      destruct (IH stem Hno Heq) as [post' ->]. by exists post'.
Qed.

Lemma occurrence_before_extension d c stem pre :
  c <> "" -> PyStr.contains_char d c = false ->
  occurs_after c (stem +:+ String d c) pre ->
  String.length stem + 1 <= String.length pre \/ occurs_after c stem pre.
Proof.
  intros Hne Hno. revert pre. induction stem as [|a stem IH]; intros pre [post Hocc].
  - destruct pre as [|x pre]; [|left; simpl; lia].
    rewrite !string_app_nil_l in Hocc.
    destruct c as [|y c]; [done|].
    rewrite string_app_cons in Hocc. injection Hocc as <- _.
    cbn [PyStr.contains_char] in Hno. by rewrite Ascii.eqb_refl in Hno.
  - destruct pre as [|x pre].
    + right. rewrite string_app_nil_l in Hocc. symmetry in Hocc.
      destruct (prefix_without_char d c post (String a stem) c Hno Hocc)
        as [post' Hpost'].
      exists post'. by rewrite string_app_nil_l.
    + rewrite !string_app_cons in Hocc. injection Hocc as <- Hocc.
      destruct (IH pre) as [Hlen|[post' Hpost']]; [by exists post| |].
      * left. simpl. lia.
      * right. exists post'. by rewrite string_app_cons, Hpost'.
Qed.

Lemma replace_go_first old new pre post :
  old <> "" ->
  (forall pre', occurs_after old (pre +:+ old +:+ post) pre' ->
                String.length pre <= String.length pre') ->
  PyStr.replace_go old new 0 (pre +:+ old +:+ post)
  = pre +:+ new +:+ PyStr.replace_go old new 0 post.
Proof.
  intros Hold. induction pre as [|c pre IH]; intros Hfirst.
  - rewrite !string_app_nil_l. by apply replace_go_match.
  - rewrite !string_app_cons.
    rewrite replace_go_no_match.
    + f_equal. apply IH. intros pre' [post' Hocc].
      assert (String.length (String c pre) <= String.length (String c pre')) as Hle.
      { apply Hfirst. exists post'. by rewrite !string_app_cons, Hocc. }
      simpl in Hle. lia.
    + apply not_true_iff_false. intros Hstart.
      apply startswith_app in Hstart as [post' Hpost'].
      assert (String.length (String c pre) <= String.length "") as Hle.
      { apply Hfirst. exists post'.
        by rewrite string_app_nil_l, !string_app_cons. }
      simpl in Hle. lia.
Qed.

(** X10: for a path of the form <stem>.<container> where the container has
    no dot and does not occur in the stem, the output path is
    <stem>.cleaned.<container>. *)
Theorem output_path_of_extension (media_file : MediaFile) (stem : string) :
  container (info media_file) <> "" ->
  PyStr.contains_char "." (container (info media_file)) = false ->
  path media_file = stem +:+ "." +:+ container (info media_file) ->
  occurs_in (container (info media_file)) stem = false ->
  output_path media_file = stem +:+ ".cleaned." +:+ container (info media_file).
Proof.
  intros Hne Hdot Hpath Hstem. unfold output_path, PyStr.replace.
  set (c := container (info media_file)) in *.
  assert (path media_file = (stem +:+ ".") +:+ c +:+ "") as ->.
  { by rewrite Hpath, string_app_assoc, string_app_nil_r. }
  rewrite replace_go_first; [|done|].
  - destruct c; [done|]. cbn [PyStr.replace_go].
    by rewrite string_app_nil_r, !string_app_assoc.
  - intros pre' Hocc. rewrite string_app_nil_r in Hocc.
    rewrite string_app_assoc in Hocc.
    destruct (occurrence_before_extension "." c stem pre' Hne Hdot Hocc)
      as [Hlen|Hin].
    + rewrite string_length_app. simpl. lia.
    + by apply (proj1 (occurs_in_false c stem) Hstem) in Hin.
Qed.

Lemma output_path_of_extension_witness :
  let mf := movie_mkv "aac" "ac3" "subrip" [] in
  container (info mf) <> ""
  /\ PyStr.contains_char "." (container (info mf)) = false
  /\ path mf = "movie" +:+ "." +:+ container (info mf)
  /\ occurs_in (container (info mf)) "movie" = false
  /\ output_path mf = "movie.cleaned.mkv".
Proof.
  intros mf.
  assert (container (info mf) <> "") as Hne by discriminate.
  split; [exact Hne|]. do 3 (split; [reflexivity|]).
  exact (output_path_of_extension mf "movie" Hne eq_refl eq_refl eq_refl).
Defined.

(** ** The command line, continued *)

Lemma _gen_cmdline_closed media_file a s :
  _gen_cmdline media_file a s
  = ["ffmpeg"; "-i"; path media_file; "-map"; "0"; "-map"]
    ++ map audio_token a ++ map subtitle_token s
    ++ ["-c"; "copy"; output_path media_file].
Proof.
  unfold _gen_cmdline.
  rewrite (fold_left_snoc audio_token), (fold_left_snoc subtitle_token).
  by rewrite <- !app_assoc.
Qed.

Lemma audio_token_inj i j : audio_token i = audio_token j -> i = j.
Proof.
  unfold audio_token, PyStr.of_int. intros H.
  apply (inj (String.app "-0:a:")) in H. by apply (inj pretty) in H.
Qed.

Lemma subtitle_token_inj i j : subtitle_token i = subtitle_token j -> i = j.
Proof.
  unfold subtitle_token, PyStr.of_int. intros H.
  apply (inj (String.app "-0:s:")) in H. by apply (inj pretty) in H.
Qed.

Lemma audio_token_not_subtitle i j : audio_token i <> subtitle_token j.
Proof.
  unfold audio_token, subtitle_token. rewrite !string_app_cons. congruence.
Qed.

Lemma audio_token_not_c i : audio_token i <> "-c".
Proof. unfold audio_token. rewrite !string_app_cons. congruence. Qed.

Lemma subtitle_token_not_c i : subtitle_token i <> "-c".
Proof. unfold subtitle_token. rewrite !string_app_cons. congruence. Qed.

Lemma cons_eq_inv {A} (x y : A) (l l' : list A) :
  x :: l = y :: l' -> x = y /\ l = l'.
Proof. intros H. by injection H. Qed.

Lemma subtitle_tokens_inj s s' rest rest' :
  map subtitle_token s ++ "-c" :: rest = map subtitle_token s' ++ "-c" :: rest' ->
  s = s' /\ rest = rest'.
Proof.
  revert s'. induction s as [|i s IH]; intros [|j s'] Heq; cbn [map app] in Heq;
    apply cons_eq_inv in Heq as [Hhd Htl].
  - by subst.
  - symmetry in Hhd. by apply subtitle_token_not_c in Hhd.
  - by apply subtitle_token_not_c in Hhd.
  - apply subtitle_token_inj in Hhd as ->.
    destruct (IH s' Htl) as [-> ->]. done.
Qed.

Lemma audio_tokens_inj a a' s s' rest rest' :
  map audio_token a ++ map subtitle_token s ++ "-c" :: rest
  = map audio_token a' ++ map subtitle_token s' ++ "-c" :: rest' ->
  a = a' /\ s = s' /\ rest = rest'.
Proof.
  assert (forall i l s0 rest0,
            audio_token i :: l = map subtitle_token s0 ++ "-c" :: rest0 -> False)
    as Hhead.
  { intros i l [|j s0] rest0 Heq; cbn [map app] in Heq;
      apply cons_eq_inv in Heq as [Hhd _].
    - by apply audio_token_not_c in Hhd.
    - by apply audio_token_not_subtitle in Hhd. }
  revert a'. induction a as [|i a IH]; intros [|j a'] Heq; cbn [map app] in Heq.
  - destruct (subtitle_tokens_inj s s' rest rest' Heq) as [-> ->]. done.
  - symmetry in Heq. by apply Hhead in Heq.
  - by apply Hhead in Heq.
  - apply cons_eq_inv in Heq as [Hij Heq]. apply audio_token_inj in Hij as ->.
    destruct (IH a' Heq) as (-> & -> & ->). done.
Qed.

(** X11: the command line determines what it was made from: two command
    lines are equal only if the input paths, the audio drop lists, the
    subtitle drop lists and the output paths are equal. *)
Theorem gen_cmdline_injective (media_file media_file' : MediaFile)
    (a a' s s' : list Z) :
  _gen_cmdline media_file a s = _gen_cmdline media_file' a' s' ->
  path media_file = path media_file' /\ a = a' /\ s = s'
  /\ output_path media_file = output_path media_file'.
Proof.
  rewrite !_gen_cmdline_closed. cbn [app]. intros Heq.
  do 2 (apply cons_eq_inv in Heq as [_ Heq]).
  apply cons_eq_inv in Heq as [Hpath Heq].
  do 3 (apply cons_eq_inv in Heq as [_ Heq]).
  destruct (audio_tokens_inj a a' s s' _ _ Heq) as (-> & -> & Hrest).
  apply cons_eq_inv in Hrest as [_ Hrest].
  apply cons_eq_inv in Hrest as [Hout _]. done.
Qed.

Lemma gen_cmdline_injective_witness :
  let mf := movie_mkv "aac" "ac3" "subrip" [] in
  _gen_cmdline mf [1%Z] [0%Z] = _gen_cmdline mf [1%Z] [0%Z]
  /\ path mf = path mf /\ [1%Z] = [1%Z] /\ [0%Z] = [0%Z].
Proof.
  intros mf. split; [reflexivity|].
  destruct (gen_cmdline_injective mf mf [1%Z] [1%Z] [0%Z] [0%Z] eq_refl)
    as (H1 & H2 & H3 & _).
  auto.
Defined.

(** ** Which tokens can be quoted *)

Lemma contains_char_app c s t :
  PyStr.contains_char c (s +:+ t)
  = PyStr.contains_char c s || PyStr.contains_char c t.
Proof.
  induction s as [|a s IH]; [reflexivity|].
  rewrite string_app_cons. cbn [PyStr.contains_char].
  destruct (Ascii.eqb a c); [reflexivity|exact IH].
Qed.

Lemma pretty_N_char_not_space n : Ascii.eqb (pretty_N_char n) " " = false.
Proof. unfold pretty_N_char. repeat case_match; reflexivity. Qed.

Lemma pretty_N_go_no_space x s :
  PyStr.contains_char " " s = false ->
  PyStr.contains_char " " (pretty_N_go x s) = false.
Proof.
  revert s. induction (N.lt_wf_0 x) as [x _ IH]; intros s Hs.
  destruct (decide (0 < x)%N) as [Hpos|Hzero].
  - rewrite pretty_N_go_step by done. apply IH.
    + by apply N.div_lt.
    + cbn [PyStr.contains_char]. by rewrite pretty_N_char_not_space.
  - assert (x = 0%N) as -> by lia. by rewrite pretty_N_go_0.
Qed.

Lemma pretty_N_no_space (x : N) : PyStr.contains_char " " (pretty x) = false.
Proof.
  unfold pretty, pretty_N. destruct (decide (x = 0%N)); [reflexivity|].
  by apply pretty_N_go_no_space.
Qed.

Lemma of_int_no_space z : PyStr.contains_char " " (PyStr.of_int z) = false.
Proof.
  unfold PyStr.of_int, pretty, pretty_Z. destruct z as [|p|p].
  - reflexivity.
  - apply pretty_N_no_space.
  - rewrite contains_char_app. cbn [PyStr.contains_char Ascii.eqb orb].
    apply pretty_N_no_space.
Qed.

Lemma quote_arg_audio_token i : quote_arg (audio_token i) = audio_token i.
Proof.
  unfold quote_arg, audio_token.
  by rewrite contains_char_app, of_int_no_space.
Qed.

Lemma quote_arg_subtitle_token i : quote_arg (subtitle_token i) = subtitle_token i.
Proof.
  unfold quote_arg, subtitle_token.
  by rewrite contains_char_app, of_int_no_space.
Qed.

(** X12: of the tokens of a command line only the input path and the output
    path can be written between quotes in the script: the fixed tokens and
    every exclusion token are written as they are. *)
Theorem only_paths_are_quoted (media_file : MediaFile) (a s : list Z) :
  map quote_arg (_gen_cmdline media_file a s)
  = ["ffmpeg"; "-i"; quote_arg (path media_file); "-map"; "0"; "-map"]
    ++ map audio_token a ++ map subtitle_token s
    ++ ["-c"; "copy"; quote_arg (output_path media_file)].
Proof.
  rewrite _gen_cmdline_closed, !map_app, !map_map.
  rewrite (map_ext (fun i => quote_arg (audio_token i)) audio_token
             quote_arg_audio_token).
  rewrite (map_ext (fun i => quote_arg (subtitle_token i)) subtitle_token
             quote_arg_subtitle_token).
  reflexivity.
Qed.

(** ** The container of a path *)

Lemma split_last_segment sep stem ext :
  PyStr.contains_char sep ext = false ->
  exists h t, PyStr.split sep (stem +:+ String sep ext) = (h :: t) ++ [ext].
Proof.
  intros Hno.
  assert (PyStr.split sep ext = [ext]) as Hext.
  { clear stem. induction ext as [|a ext IH]; [reflexivity|].
    cbn [PyStr.contains_char] in Hno. cbn [PyStr.split].
    destruct (Ascii.eqb a sep); [discriminate|]. by rewrite (IH Hno). }
  induction stem as [|a stem (h & t & IH)].
  - rewrite string_app_nil_l. cbn [PyStr.split]. rewrite Ascii.eqb_refl, Hext.
    by exists "", [].
  - rewrite string_app_cons. cbn [PyStr.split]. rewrite IH.
    destruct (Ascii.eqb a sep).
    + by exists "", (h :: t).
    + by exists (String a h), t.
Qed.

Lemma container_of_stem_ext w stem ext :
  PyStr.contains_char "." ext = false ->
  container_of w (stem +:+ "." +:+ ext) = str_lower w ext.
Proof.
  intros Hno. unfold container_of, PyStr.last_item.
  destruct (split_last_segment "." stem ext Hno) as (h & t & Hsplit).
  change (stem +:+ "." +:+ ext) with (stem +:+ String "." ext).
  by rewrite Hsplit, last_last.
Qed.

(** X13: the container computed for a path <stem>.<ext>, where <ext> has no
    dot, is [ext.lower()], whatever the stem (dots in directory names and in
    the file name included); for an ASCII <ext> that is <ext> with the
    letters A-Z made a-z. *)
Theorem container_of_extension (w : World) (stem ext : string) :
  PyStr.contains_char "." ext = false ->
  container_of w (stem +:+ "." +:+ ext) = str_lower w ext
  /\ (PyStr.is_ascii ext = true ->
      container_of w (stem +:+ "." +:+ ext) = PyStr.ascii_lower ext).
Proof.
  intros Hno. rewrite (container_of_stem_ext w stem ext Hno).
  split; [reflexivity|]. apply str_lower_ascii.
Qed.

Lemma container_of_extension_witness :
  PyStr.contains_char "." "MKV" = false
  /\ PyStr.is_ascii "MKV" = true
  /\ container_of demo_world ("lib.v2/Show.S01" +:+ "." +:+ "MKV") = "mkv".
Proof.
  do 2 (split; [reflexivity|]).
  exact (proj2 (container_of_extension demo_world "lib.v2/Show.S01" "MKV" eq_refl)
           eq_refl).
Defined.

(** C7: a [MediaFileInfo] made by [from_path] whose container is "unknown"
    has no audio, video or subtitle streams; and for a path <stem>.<ext>
    whose final extension <ext> (the part after the last dot), lower-cased, is
    not mkv, mp4 or avi, [from_path] leaves the state as it is and runs no
    ffprobe; so it does for a path without a dot and for a path that does
    not exist. *)
Theorem from_path_unknown_has_no_streams (w : World) (p : string) (st : State) :
  (forall i, fst (MediaFileInfo_from_path w p st) = Ok i ->
     container i = "unknown" ->
     audio_streams i = [] /\ video_streams i = [] /\ subtitle_streams i = [])
  /\ (forall stem ext,
        p = stem +:+ "." +:+ ext -> PyStr.contains_char "." ext = false ->
        str_lower w ext ∉ ["mkv"; "mp4"; "avi"] ->
        snd (MediaFileInfo_from_path w p st) = st
        /\ forall kind file,
             Probe kind file ∉ events (MediaFileInfo_from_path w p))
  /\ (PyStr.contains_char "." p = false \/ path_exists w p = false ->
      snd (MediaFileInfo_from_path w p st) = st
      /\ forall kind file, Probe kind file ∉ events (MediaFileInfo_from_path w p)).
Proof.
  destruct (from_path_stops_early w p st) as [Hunknown Hstop].
  split; [exact Hunknown|]. split.
  - intros stem ext -> Hno Hext. apply Hstop. left.
    by rewrite (container_of_stem_ext w stem ext Hno).
  - intros Hskip. apply Hstop. by right.
Qed.

Lemma from_path_unknown_has_no_streams_witness :
  let i := unknown_info in
  fst (MediaFileInfo_from_path demo_world "notes.txt" empty_state) = Ok i
  /\ container i = "unknown"
  /\ "notes.txt" = "notes" +:+ "." +:+ "txt"
  /\ PyStr.contains_char "." "txt" = false
  /\ (str_lower demo_world "txt" ∉ ["mkv"; "mp4"; "avi"])
  /\ (audio_streams i = [] /\ video_streams i = [] /\ subtitle_streams i = [])
  /\ snd (MediaFileInfo_from_path demo_world "notes.txt" empty_state) = empty_state.
Proof.
  intros i.
  assert (str_lower demo_world "txt" ∉ ["mkv"; "mp4"; "avi"]) as Hout.
  { apply (bool_decide_unpack _). vm_compute. exact I. }
  do 4 (split; [reflexivity|]). split; [exact Hout|].
  destruct (from_path_unknown_has_no_streams demo_world "notes.txt" empty_state)
    as (H1 & H2 & _).
  split; [exact (H1 i eq_refl eq_refl)|].
  exact (proj1 (H2 "notes" "txt" eq_refl eq_refl Hout)).
Defined.

(** ** Probing one file *)

(** X14: the three ffprobe runs of one file are made in the order audio,
    video, subtitle, and the first one that raises ends them: its exception is
    what [from_path] raises, and the later runs are not made. *)
Theorem probes_stop_at_first_failure (w : World) (p : string) (e : exn) :
  PyStr.contains_char "." p = true ->
  path_exists w p = true ->
  container_of w p ∈ known_containers ->
  (ffprobe w "a" p = Raise e ->
   runs (MediaFileInfo_from_path w p) (Raise e) [Probe "a" p])
  /\ (forall a, ffprobe w "a" p = Ok a -> ffprobe w "v" p = Raise e ->
        runs (MediaFileInfo_from_path w p) (Raise e) [Probe "a" p; Probe "v" p])
  /\ (forall a v, ffprobe w "a" p = Ok a -> ffprobe w "v" p = Ok v ->
        ffprobe w "s" p = Raise e ->
        runs (MediaFileInfo_from_path w p) (Raise e)
          [Probe "a" p; Probe "v" p; Probe "s" p]).
Proof.
  intros Hdot Hex Hknown.
  assert (MediaFileInfo_from_path w p
          = bind (_read_ffmpeg_info w p) (fun streams =>
              let '(audio_streams, video_streams, subtitle_streams) := streams in
              ret {| container := container_of w p; audio_streams := audio_streams;
                     video_streams := video_streams;
                     subtitle_streams := subtitle_streams |})) as ->.
  { unfold MediaFileInfo_from_path. rewrite Hdot, Hex.
    by rewrite bool_decide_eq_true_2. }
  pose proof (__stream_info_runs w p "a") as Ha.
  pose proof (__stream_info_runs w p "v") as Hv.
  pose proof (__stream_info_runs w p "s") as Hs.
  unfold _read_ffmpeg_info.
  split; [|split].
  - intros Hfail. rewrite Hfail in Ha. by do 2 apply runs_bind_raise.
  - intros a Hoka Hfail. rewrite Hoka in Ha. rewrite Hfail in Hv.
    apply runs_bind_raise.
    apply (runs_bind _ _ a _ [Probe "a" p] [Probe "v" p] Ha).
    by apply runs_bind_raise.
  - intros a v Hoka Hokv Hfail. rewrite Hoka in Ha. rewrite Hokv in Hv.
    rewrite Hfail in Hs.
    apply runs_bind_raise.
    apply (runs_bind _ _ a _ [Probe "a" p] [Probe "v" p; Probe "s" p] Ha).
    apply (runs_bind _ _ v _ [Probe "v" p] [Probe "s" p] Hv).
    by apply runs_bind_raise.
Qed.

Lemma probes_stop_at_first_failure_witness :
  let e := CalledProcessError (ffprobe_cmd "a" "lib/b.mkv") in
  PyStr.contains_char "." "lib/b.mkv" = true
  /\ path_exists demo_world "lib/b.mkv" = true
  /\ container_of demo_world "lib/b.mkv" ∈ known_containers
  /\ ffprobe demo_world "a" "lib/b.mkv" = Raise e
  /\ runs (MediaFileInfo_from_path demo_world "lib/b.mkv") (Raise e)
       [Probe "a" "lib/b.mkv"].
Proof.
  intros e.
  assert (container_of demo_world "lib/b.mkv" ∈ known_containers) as Hknown.
  { apply (bool_decide_unpack _). vm_compute. exact I. }
  do 2 (split; [reflexivity|]). split; [exact Hknown|]. split; [reflexivity|].
  exact (proj1 (probes_stop_at_first_failure demo_world "lib/b.mkv" e
                  eq_refl eq_refl Hknown) eq_refl).
Defined.

Lemma scan_one_container_of w p mf :
  scan_one w p = Ok mf ->
  (container_of w p ∈ known_containers -> container (info mf) = container_of w p)
  /\ (container_of w p ∉ known_containers -> container (info mf) = "unknown").
Proof.
  intros Hmf.
  destruct (MediaFile_from_path_runs w p) as (r & evs & Hrun & _ & r' & Hcase & Hr).
  unfold scan_one in Hmf. rewrite (runs_outcome _ _ _ Hrun) in Hmf. subst r.
  split; intros Hc; destruct Hcase; try done; by simplify_eq.
Qed.

(** X15: a media file made by [from_path] has the path it was made from,
    and its container is one of mkv, mp4, avi and unknown: the lower-cased
    extension when that is one of the three, and unknown otherwise. *)
Theorem from_path_container (w : World) (p : string) (mf : MediaFile) :
  scan_one w p = Ok mf ->
  path mf = p
  /\ (container (info mf) ∈ known_containers \/ container (info mf) = "unknown")
  /\ (container_of w p ∈ known_containers -> container (info mf) = container_of w p)
  /\ (container_of w p ∉ known_containers -> container (info mf) = "unknown").
Proof.
  intros Hmf.
  split; [by apply (scan_one_path w)|].
  split; [by apply (scan_one_container w p)|].
  by apply (scan_one_container_of w).
Qed.

Lemma from_path_container_witness :
  exists mf,
    scan_one demo_world "lib/a.mkv" = Ok mf
    /\ path mf = "lib/a.mkv" /\ container (info mf) = "mkv".
Proof.
  eexists. split; [vm_compute; reflexivity|].
  assert (container_of demo_world "lib/a.mkv" ∈ known_containers) as Hknown.
  { apply (bool_decide_unpack _). vm_compute. exact I. }
  destruct (from_path_container demo_world "lib/a.mkv" _ eq_refl)
    as (H1 & _ & H3 & _).
  split; [exact H1|]. exact (H3 Hknown).
Defined.

(** ** A fresh scan, file by file *)

Lemma probes_only_ret {A} (a : A) : probes_only (ret a).
Proof. exists (Ok a), []. split; [apply runs_ret|constructor]. Qed.

Lemma probes_only_raise {A} (e : exn) : probes_only (@raise A e).
Proof. exists (Raise e), []. split; [apply runs_raise|constructor]. Qed.

Lemma probes_only_bind {A B} (c : M A) (k : A -> M B) :
  probes_only c -> (forall a, probes_only (k a)) -> probes_only (bind c k).
Proof.
  intros (r & evs & Hc & Hevs) Hk. destruct r as [a|e].
  - destruct (Hk a) as (r' & evs' & Hk' & Hevs').
    exists r', (evs ++ evs'). split; [by eapply runs_bind|].
    by apply Forall_app.
  - exists (Raise e), evs. split; [by apply runs_bind_raise|done].
Qed.

Lemma __stream_info_probes_only w p kind : probes_only (__stream_info w p kind).
Proof.
  exists (ffprobe w kind p), [Probe kind p].
  split; [apply __stream_info_runs|]. by repeat constructor.
Qed.

Lemma MediaFile_from_path_probes_only w p : probes_only (MediaFile_from_path w p).
Proof.
  unfold MediaFile_from_path.
  apply probes_only_bind; [|intros i; apply probes_only_ret].
  unfold MediaFileInfo_from_path.
  destruct (negb (PyStr.contains_char "." p)); [apply probes_only_raise|].
  destruct (negb (path_exists w p)); [apply probes_only_raise|].
  destruct (negb (bool_decide (container_of w p ∈ known_containers)));
    [apply probes_only_ret|].
  apply probes_only_bind.
  - unfold _read_ffmpeg_info.
    apply probes_only_bind; [apply __stream_info_probes_only|intros a].
    apply probes_only_bind; [apply __stream_info_probes_only|intros v].
    apply probes_only_bind; [apply __stream_info_probes_only|intros s].
    apply probes_only_ret.
  - intros [[a v] s]. apply probes_only_ret.
Qed.

Lemma from_path_events_are_probes w p :
  Forall is_probe (events (MediaFile_from_path w p)).
Proof.
  destruct (MediaFile_from_path_probes_only w p) as (r & evs & Hrun & Hevs).
  by rewrite (runs_events _ _ _ Hrun).
Qed.

Lemma logged_errors_app evs1 evs2 :
  logged_errors (evs1 ++ evs2) = logged_errors evs1 ++ logged_errors evs2.
Proof. unfold logged_errors. apply omap_app. Qed.

Lemma logged_errors_probes evs : Forall is_probe evs -> logged_errors evs = [].
Proof.
  induction 1 as [|ev evs Hev Hevs IH]; [reflexivity|].
  destruct ev; first [done|exact IH].
Qed.

Lemma scan_errors_cons_ok w f files mf :
  scan_one w f = Ok mf -> scan_errors w (f :: files) = scan_errors w files.
Proof. intros Hf. unfold scan_errors. simpl. by rewrite Hf. Qed.

Lemma scan_errors_cons_raise w f files e :
  scan_one w f = Raise e -> scan_errors w (f :: files) = e :: scan_errors w files.
Proof. intros Hf. unfold scan_errors. simpl. by rewrite Hf. Qed.

Lemma logged_errors_scan w files :
  logged_errors (concat (map (scan_events w) files)) = scan_errors w files.
Proof.
  induction files as [|f files IH]; [reflexivity|].
  cbn [map concat]. rewrite logged_errors_app, IH.
  unfold scan_events.
  rewrite logged_errors_app, (logged_errors_probes _ (from_path_events_are_probes w f)).
  destruct (scan_one w f) as [mf|e] eqn:Hf.
  - by rewrite (scan_errors_cons_ok w f files mf Hf).
  - by rewrite (scan_errors_cons_raise w f files e Hf).
Qed.

Lemma logged_errors_fresh w p :
  logged_errors (fresh_scan_events w p) = scan_errors w (enumerated w p).
Proof.
  unfold fresh_scan_events.
  rewrite !logged_errors_app, logged_errors_scan.
  cbn [logged_errors omap app]. by rewrite app_nil_r.
Qed.

Lemma scanned_and_errors w files :
  length (scanned w files) + length (scan_errors w files) = length files.
Proof.
  induction files as [|f files IH]; [reflexivity|].
  destruct (scan_one w f) as [mf|e] eqn:Hf.
  - rewrite (scanned_cons_ok w f files mf Hf), (scan_errors_cons_ok w f files mf Hf).
    cbn [length]. lia.
  - rewrite (scanned_cons_raise w f files e Hf),
      (scan_errors_cons_raise w f files e Hf).
    cbn [length]. lia.
Qed.

Lemma scanned_paths_sublist w files :
  map path (scanned w files) `sublist_of` files.
Proof.
  induction files as [|f files IH]; [constructor|].
  destruct (scan_one w f) as [mf|e] eqn:Hf.
  - rewrite (scanned_cons_ok w f files mf Hf). cbn [map].
    rewrite (scan_one_path w f mf Hf). by apply sublist_skip.
  - rewrite (scanned_cons_raise w f files e Hf). by apply sublist_cons.
Qed.

Lemma elem_of_scanned w files mf :
  mf ∈ scanned w files <-> exists f, f ∈ files /\ scan_one w f = Ok mf.
Proof.
  unfold scanned. rewrite list_elem_of_omap. split.
  - intros (f & Hf & Hmf). exists f. split; [done|].
    destruct (scan_one w f); by simplify_eq.
  - intros (f & Hf & Hmf). exists f. split; [done|]. by rewrite Hmf.
Qed.

(** X16: a fresh scan accounts for every enumerated file, however many of
    them raise: the returned media files are, in the order of the walk, those
    whose reading did not raise, one error is logged for each of the others
    (in the same order), and the two numbers add up to the number of
    enumerated files. *)
Theorem fresh_scan_accounts_for_every_file (w : World) (p : string)
    (cached : bool) (st : State) :
  cached = false \/ pickle_file st = None ->
  exists media_files st' evs,
    find_media_files w p cached st = (Ok media_files, st')
    /\ trace st' = trace st ++ evs
    /\ map path media_files `sublist_of` enumerated w p
    /\ (forall mf, mf ∈ media_files
                   <-> exists f, f ∈ enumerated w p /\ scan_one w f = Ok mf)
    /\ logged_errors evs = scan_errors w (enumerated w p)
    /\ length media_files + length (logged_errors evs) = length (enumerated w p).
Proof.
  intros Hfresh.
  exists (scanned w (enumerated w p)),
    {| pickle_file := Some (Ok (scanned w (enumerated w p)));
       trace := trace st ++ fresh_scan_events w p |},
    (fresh_scan_events w p).
  split; [by apply find_media_files_fresh|].
  split; [reflexivity|].
  split; [apply scanned_paths_sublist|].
  split; [intros mf; apply elem_of_scanned|].
  split; [apply logged_errors_fresh|].
  rewrite logged_errors_fresh. apply scanned_and_errors.
Qed.

Lemma fresh_scan_accounts_for_every_file_witness :
  (false = false \/ pickle_file empty_state = None)
  /\ exists media_files st' evs,
       find_media_files demo_world "lib" false empty_state = (Ok media_files, st')
       /\ trace st' = trace empty_state ++ evs
       /\ length media_files + length (logged_errors evs) = 3.
Proof.
  split; [by left|].
  destruct (fresh_scan_accounts_for_every_file demo_world "lib" false empty_state
              (or_introl eq_refl))
    as (mfs & st' & evs & H1 & H2 & _ & _ & _ & H6).
  exists mfs, st', evs. auto.
Defined.

(** X17: what a fresh scan returns is what a later scan with [cached] set
    returns, for any root path and whatever the file system has become: the
    later scan neither walks nor probes and leaves the snapshot as it is. *)
Theorem snapshot_round_trip (w w' : World) (p p' : string) (cached : bool)
    (st : State) :
  cached = false \/ pickle_file st = None ->
  exists media_files st1 st2 evs,
    find_media_files w p cached st = (Ok media_files, st1)
    /\ find_media_files w' p' true st1 = (Ok media_files, st2)
    /\ pickle_file st2 = pickle_file st1
    /\ trace st2 = trace st1 ++ evs
    /\ Forall (fun ev => ~ is_scan_effect ev) evs.
Proof.
  intros Hfresh. do 4 eexists.
  split; [by apply find_media_files_fresh|].
  split; [by apply find_media_files_cached|].
  split; [reflexivity|]. split; [reflexivity|].
  repeat constructor; simpl; tauto.
Qed.

Lemma snapshot_round_trip_witness :
  (false = false \/ pickle_file empty_state = None)
  /\ exists media_files st1 st2,
       find_media_files demo_world "lib" false empty_state = (Ok media_files, st1)
       /\ find_media_files demo_world "elsewhere" true st1 = (Ok media_files, st2).
Proof.
  split; [by left|].
  destruct (snapshot_round_trip demo_world demo_world "lib" "elsewhere" false
              empty_state (or_introl eq_refl))
    as (mfs & st1 & st2 & evs & H1 & H2 & _).
  exists mfs, st1, st2. auto.
Defined.

(** X18: with [cached] unset, what [media.pickle] holds beforehand (nothing,
    a snapshot, something that does not load) makes no difference: it is not
    loaded, the same files are returned and the same events happen, and
    afterwards it holds the new result. *)
Theorem fresh_scan_ignores_snapshot (w : World) (p : string)
    (before before' : option (result (list MediaFile))) (tr : list event) :
  find_media_files w p false {| pickle_file := before; trace := tr |}
  = find_media_files w p false {| pickle_file := before'; trace := tr |}
  /\ exists media_files st' evs,
       find_media_files w p false {| pickle_file := before; trace := tr |}
       = (Ok media_files, st')
       /\ pickle_file st' = Some (Ok media_files)
       /\ trace st' = tr ++ evs
       /\ PickleLoad ∉ evs.
Proof.
  rewrite !(find_media_files_fresh w p false _ (or_introl eq_refl)).
  split; [reflexivity|].
  do 3 eexists. split; [reflexivity|]. split; [reflexivity|].
  split; [reflexivity|].
  unfold fresh_scan_events. rewrite !elem_of_app.
  intros [Hin|[Hin|Hin]].
  - repeat (apply elem_of_cons in Hin as [Hin|Hin]; [discriminate|]).
    by apply elem_of_nil in Hin.
  - apply list_elem_of_In, in_concat in Hin as (evs & Hevs & Hin).
    apply in_map_iff in Hevs as (f & <- & _).
    apply list_elem_of_In in Hin. unfold scan_events in Hin.
    apply elem_of_app in Hin as [Hin|Hin].
    + pose proof (from_path_events_are_probes w f) as Hprobes.
      rewrite Forall_forall in Hprobes. by apply Hprobes in Hin.
    + destruct (scan_one w f).
      * by apply elem_of_nil in Hin.
      * apply elem_of_cons in Hin as [Hin|Hin]; [discriminate|].
        by apply elem_of_nil in Hin.
  - repeat (apply elem_of_cons in Hin as [Hin|Hin]; [discriminate|]).
    by apply elem_of_nil in Hin.
Qed.

Lemma lower_known w ext : ext ∈ known_containers -> str_lower w ext = ext.
Proof.
  intros Hin.
  repeat (apply elem_of_cons in Hin as [->|Hin];
          [by rewrite str_lower_ascii|]).
  by apply elem_of_nil in Hin.
Qed.

Lemma known_no_dot ext :
  ext ∈ known_containers -> PyStr.contains_char "." ext = false.
Proof.
  intros Hin.
  repeat (apply elem_of_cons in Hin as [->|Hin]; [reflexivity|]).
  by apply elem_of_nil in Hin.
Qed.

Lemma enumerated_rglob w p f :
  f ∈ enumerated w p ->
  exists ext, ext ∈ known_containers /\ f ∈ rglob w p ("*." +:+ ext).
Proof.
  unfold enumerated. rewrite !elem_of_app. intros [H|[H|H]].
  - exists "mkv". split; [unfold known_containers; in_list|exact H].
  - exists "mp4". split; [unfold known_containers; in_list|exact H].
  - exists "avi". split; [unfold known_containers; in_list|exact H].
Qed.

(** X19: when the walk only yields paths that end in the extension asked
    for, no file of a fresh scan has the container unknown: every returned
    file has as container the extension under which the walk found it. *)
Theorem fresh_scan_containers (w : World) (p : string) (cached : bool)
    (st : State) :
  cached = false \/ pickle_file st = None ->
  glob_matches_extension w p ->
  exists media_files st',
    find_media_files w p cached st = (Ok media_files, st')
    /\ Forall (fun mf =>
                 container (info mf) ∈ known_containers
                 /\ path mf ∈ rglob w p ("*." +:+ container (info mf)))
         media_files.
Proof.
  intros Hfresh Hglob. do 2 eexists.
  split; [by apply find_media_files_fresh|].
  apply Forall_forall. intros mf Hmf.
  apply elem_of_scanned in Hmf as (f & Hf & Hscan).
  destruct (enumerated_rglob w p f Hf) as (ext & Hext & Hin).
  destruct (Hglob ext f Hext Hin) as [stem ->].
  assert (container_of w (stem +:+ "." +:+ ext) = ext) as Hc.
  { rewrite (container_of_stem_ext w stem ext (known_no_dot ext Hext)).
    by apply lower_known. }
  destruct (scan_one_container_of w _ mf Hscan) as [Hknown _].
  rewrite Hc in Hknown. rewrite (Hknown Hext).
  split; [exact Hext|]. by rewrite (scan_one_path w _ mf Hscan).
Qed.

Lemma demo_world_glob : glob_matches_extension demo_world "lib".
Proof.
  intros ext file Hext Hin.
  repeat (apply elem_of_cons in Hext as [->|Hext];
          [cbn in Hin;
           repeat (apply elem_of_cons in Hin as [->|Hin];
                   [eexists (String _ (String _ (String _ (String _ (String _ EmptyString)))));
                    reflexivity|]);
           by apply elem_of_nil in Hin|]).
  by apply elem_of_nil in Hext.
Defined.

Lemma fresh_scan_containers_witness :
  (false = false \/ pickle_file empty_state = None)
  /\ glob_matches_extension demo_world "lib"
  /\ exists media_files st',
       find_media_files demo_world "lib" false empty_state = (Ok media_files, st')
       /\ Forall (fun mf => container (info mf) ∈ known_containers) media_files.
Proof.
  split; [by left|]. split; [exact demo_world_glob|].
  destruct (fresh_scan_containers demo_world "lib" false empty_state
              (or_introl eq_refl) demo_world_glob) as (mfs & st' & H1 & H2).
  exists mfs, st'. split; [exact H1|].
  eapply Forall_impl; [exact H2|]. by intros mf [Hc _].
Defined.

(** ** Cutting and joining strings *)

Lemma split_nonempty sep s : PyStr.split sep s <> [].
Proof.
  destruct s as [|a s]; [done|]. cbn [PyStr.split].
  destruct (Ascii.eqb a sep); [done|]. by destruct (PyStr.split sep s).
Qed.

Lemma join_cons sep x y l :
  PyStr.join sep (x :: y :: l) = x +:+ sep +:+ PyStr.join sep (y :: l).
Proof. reflexivity. Qed.

Lemma join_split sep s :
  PyStr.join (String sep "") (PyStr.split sep s) = s.
Proof.
  induction s as [|a s IH]; [reflexivity|].
  cbn [PyStr.split]. pose proof (split_nonempty sep s) as Hne.
  destruct (Ascii.eqb_spec a sep) as [->|Hneq].
  - destruct (PyStr.split sep s) as [|h t]; [done|].
    rewrite join_cons, IH. reflexivity.
  - destruct (PyStr.split sep s) as [|h [|h' t]]; [done| |].
    + cbn [PyStr.join] in *. by rewrite IH.
    + rewrite join_cons in *. rewrite string_app_cons. by rewrite IH.
Qed.

Lemma split_no_sep sep s :
  PyStr.contains_char sep s = false -> PyStr.split sep s = [s].
Proof.
  induction s as [|a s IH]; [reflexivity|].
  cbn [PyStr.contains_char PyStr.split].
  destruct (Ascii.eqb a sep); [discriminate|]. intros Hno. by rewrite (IH Hno).
Qed.

Lemma split_app_sep sep x rest :
  PyStr.contains_char sep x = false ->
  PyStr.split sep (x +:+ String sep rest) = x :: PyStr.split sep rest.
Proof.
  induction x as [|a x IH].
  - intros _. rewrite string_app_nil_l. cbn [PyStr.split].
    by rewrite Ascii.eqb_refl.
  - cbn [PyStr.contains_char]. rewrite string_app_cons. cbn [PyStr.split].
    destruct (Ascii.eqb a sep); [discriminate|]. intros Hno. by rewrite (IH Hno).
Qed.

Lemma split_pieces_no_sep sep s :
  Forall (fun x => PyStr.contains_char sep x = false) (PyStr.split sep s).
Proof.
  induction s as [|a s IH]; [by repeat constructor|].
  cbn [PyStr.split]. destruct (Ascii.eqb a sep) eqn:Ha.
  - by constructor.
  - pose proof (split_nonempty sep s) as Hne.
    destruct (PyStr.split sep s) as [|h t]; [done|].
    apply Forall_cons in IH as [Hh Ht]. constructor; [|exact Ht].
    cbn [PyStr.contains_char]. by rewrite Ha.
Qed.

(** X20: cutting a string at a separator and joining the pieces with that
    separator are inverse to each other: the pieces of [s.split(sep)] are
    never none, hold no separator and joined give [s] back (so nothing is
    stripped from an allow-list given as "jpn, eng"), and a non-empty list of
    pieces without separator is what its joined string is cut into. *)
Theorem split_join_round_trip (sep : ascii) (s : string) (l : list string) :
  (PyStr.split sep s <> []
   /\ Forall (fun x => PyStr.contains_char sep x = false) (PyStr.split sep s)
   /\ PyStr.join (String sep "") (PyStr.split sep s) = s)
  /\ (l <> [] -> Forall (fun x => PyStr.contains_char sep x = false) l ->
      PyStr.split sep (PyStr.join (String sep "") l) = l).
Proof.
  split.
  - split; [apply split_nonempty|]. split; [apply split_pieces_no_sep|apply join_split].
  - intros Hne Hl. induction Hl as [|x l Hx Hl IH]; [done|].
    destruct l as [|y l].
    + cbn [PyStr.join]. by apply split_no_sep.
    + rewrite join_cons. change (String sep "" +:+ ?r) with (String sep r).
      rewrite (split_app_sep sep x _ Hx). f_equal. by apply IH.
Qed.

Lemma split_join_round_trip_witness :
  PyStr.split "," "jpn, eng" = ["jpn"; " eng"]
  /\ PyStr.join "," (PyStr.split "," "jpn, eng") = "jpn, eng"
  /\ PyStr.split "," (PyStr.join "," ["jpn"; "eng"]) = ["jpn"; "eng"].
Proof.
  split; [reflexivity|].
  destruct (split_join_round_trip "," "jpn, eng" ["jpn"; "eng"]) as [(_ & _ & H1) H2].
  split; [exact H1|].
  apply H2; [discriminate|].
  repeat (apply Forall_cons_2; [reflexivity|]). apply Forall_nil_2.
Defined.

(** ** The driver *)

(** X21: given the dictionary that [init] returned, the statements after it
    call [exit(1)] exactly when the dictionary holds neither a non-empty
    input path nor a true [cached]; they then log one error line and do
    nothing else: no scan, no snapshot.  They call [exit] in no other case
    and with no other code. *)
Theorem main_exit_code (w : World) (args : Args) (pr : Process) :
  (truthy_str (input_path args) = false /\ truthy_bool (cached args) = false ->
   main w args pr
   = (SystemExit 1,
      {| scan_state := scan_state pr; text_files := text_files pr;
         error_log := error_log pr
                      ++ ["You must provide --input-path or use --cached"] |}))
  /\ (forall code, fst (main w args pr) = SystemExit code ->
        code = 1%Z /\ truthy_str (input_path args) = false
        /\ truthy_bool (cached args) = false).
Proof.
  split.
  - intros [Hi Hc]. unfold main. by rewrite Hi, Hc.
  - intros code. unfold main.
    destruct (truthy_str (input_path args)) eqn:Hi;
      destruct (truthy_bool (cached args)) eqn:Hc; cbn [negb andb];
      try (destruct (find_media_files_opt _ _ _ _) as [[mfs|e|] st1];
           [destruct ((_ ;;; _) st1) as [[script|e] st2]| |];
           cbn [fst]; discriminate).
    cbn [fst]. intros [= <-]. done.
Qed.

Lemma main_exit_code_witness :
  truthy_str (input_path bare_args) = false
  /\ truthy_bool (cached bare_args) = false
  /\ fst (main demo_world bare_args empty_process) = SystemExit 1
  /\ text_files (snd (main demo_world bare_args empty_process)) = ∅
  /\ scan_state (snd (main demo_world bare_args empty_process)) = empty_state.
Proof.
  do 2 (split; [reflexivity|]).
  pose proof (proj1 (main_exit_code demo_world bare_args empty_process)
                (conj eq_refl eq_refl)) as Hmain.
  by rewrite Hmain.
Defined.





(** X23: [--cached] without an input path and without a snapshot: the
    program logs that it searches in "None" and then dies of the [TypeError]
    of [Path(None)]; no snapshot and no script are written. *)
Theorem main_cached_without_snapshot_or_input (w : World) (args : Args)
    (pr : Process) :
  input_path args = None -> cached args = Some true ->
  pickle_file (scan_state pr) = None ->
  main w args pr
  = (UncaughtTypeError,
     {| scan_state :=
          {| pickle_file := None;
             trace := trace (scan_state pr)
                      ++ [LogInfo ("Searching for compatible files in "
                                   +:+ dq +:+ "None" +:+ dq)] |};
        text_files := text_files pr;
        error_log := error_log pr |}).
Proof.
  intros Hp Hc Hnone. unfold main, find_media_files_opt.
  rewrite Hp, Hc, Hnone. cbn [truthy_str truthy_bool negb andb].
  rewrite bool_decide_eq_false_2 by (by intros [? ?]).
  reflexivity.
Qed.

Lemma main_cached_without_snapshot_or_input_witness :
  input_path cached_args = None /\ cached cached_args = Some true
  /\ pickle_file (scan_state empty_process) = None
  /\ fst (main demo_world cached_args empty_process) = UncaughtTypeError.
Proof.
  do 3 (split; [reflexivity|]).
  by rewrite (main_cached_without_snapshot_or_input demo_world cached_args
                empty_process eq_refl eq_refl eq_refl).
Defined.

Lemma find_media_files_opt_cached w path st snapshot :
  pickle_file st = Some (Ok snapshot) ->
  find_media_files_opt w path true st
  = (ScanReturned snapshot,
     {| pickle_file := pickle_file st;
        trace := trace st
                 ++ [LogInfo ("Starting from a cached file scan in "
                              +:+ dq +:+ "media.pickle" +:+ dq);
                     PickleLoad] |}).
Proof.
  intros Hfile. unfold find_media_files_opt. destruct path as [p|].
  - by rewrite (find_media_files_cached w p st (Ok snapshot) Hfile).
  - rewrite bool_decide_eq_true_2 by (rewrite Hfile; by eexists).
    cbn [andb]. by rewrite (find_media_files_cached w "" st (Ok snapshot) Hfile).
Qed.

(** X25: with [--cached] and a snapshot that loads, the script is made from
    the snapshot alone: whatever the input path (given or not) and whatever
    is on the file system now, the statements raise nothing and do not exit:
    they reach the writing of the script, the text to write is exactly the
    script of the snapshot's files, the snapshot is as before, and nothing
    is walked or probed. *)
Theorem main_from_snapshot (w : World) (args : Args) (pr : Process)
    (snapshot : list MediaFile) :
  cached args = Some true ->
  pickle_file (scan_state pr) = Some (Ok snapshot) ->
  Forall (streams_are_records (PyStr.split "," (languages args))) snapshot ->
  exists st' evs,
    main w args pr
    = (ScriptReady
         (script_text quote_arg (PyStr.split "," (languages args)) snapshot),
       {| scan_state := st'; text_files := text_files pr;
          error_log := error_log pr |})
    /\ pickle_file st' = Some (Ok snapshot)
    /\ trace st' = trace (scan_state pr) ++ evs
    /\ Forall (fun ev => ~ is_scan_effect ev) evs.
Proof.
  intros Hc Hfile Hall. unfold main. rewrite Hc.
  cbn [truthy_bool negb]. rewrite andb_false_r.
  rewrite (find_media_files_opt_cached w _ _ snapshot Hfile).
  unfold bind, logging_info, emit. cbn [pickle_file trace].
  destruct (process_loop_logs_only (PyStr.split "," (languages args)) snapshot
              ("#!/bin/bash" +:+ nl +:+ nl)) as (r & evs & Hrun & Hevs).
  match goal with
  | |- context [process_media_files _ _ ?st] =>
      pose proof (process_loop_fst _ snapshot Hall
                    ("#!/bin/bash" +:+ nl +:+ nl) st) as Hfst;
      unfold process_media_files; rewrite (Hrun st) in *
  end.
  cbn [fst pickle_file trace] in *. subst r.
  eexists _, ([LogInfo ("Starting from a cached file scan in "
                        +:+ dq +:+ "media.pickle" +:+ dq);
               PickleLoad; LogInfo "Processing media"] ++ evs).
  split; [reflexivity|]. cbn [pickle_file trace].
  split; [exact Hfile|].
  split; [rewrite <- !app_assoc; reflexivity|].
  apply Forall_app. split.
  - repeat (apply Forall_cons_2; [simpl; tauto|]). apply Forall_nil_2.
  - eapply Forall_impl; [exact Hevs|]. intros [] Hlog; simpl in *; tauto.
Qed.

Lemma main_from_snapshot_witness :
  let snapshot := [movie_mkv "aac" "ac3" "subrip" []] in
  let pr := {| scan_state := {| pickle_file := Some (Ok snapshot); trace := [] |};
               text_files := ∅; error_log := [] |} in
  cached cached_args = Some true
  /\ pickle_file (scan_state pr) = Some (Ok snapshot)
  /\ Forall (streams_are_records (PyStr.split "," (languages cached_args))) snapshot
  /\ fst (main demo_world cached_args pr)
     = ScriptReady (script_text quote_arg ["eng"] snapshot).
Proof.
  intros snapshot pr.
  assert (Forall (streams_are_records (PyStr.split "," (languages cached_args)))
            snapshot) as Hall.
  { apply Forall_cons_2; [|apply Forall_nil_2].
    split; repeat (apply Forall_cons_2; [intros _; split; by eexists|]);
      apply Forall_nil_2. }
  do 2 (split; [reflexivity|]). split; [exact Hall|].
  destruct (main_from_snapshot demo_world cached_args pr snapshot eq_refl eq_refl Hall)
    as (st' & evs & Hmain & _).
  by rewrite Hmain.
Defined.
